(** * YouTube video resolution (src/services/youtube_service.py)

    A shallow embedding of [YouTubeService]: the video-ID format check, the
    API search strategy, the scraping strategy with its two extraction
    passes, and the two URL builders.

    Python [str] values are modelled as [string]; a character stands for
    the code point of the same number (0..255).  The outside world (the
    YouTube Data API client, the HTTP session and [json.loads]) is a
    parameter of the development; every request the service issues is
    appended to a log. *)

From Stdlib Require Import String Ascii List ZArith NArith Bool Lia Floats.
Import ListNotations.

Local Open Scope string_scope.
Local Open Scope list_scope.

(** ** Python string primitives *)

Module Py.

Definition ord (c : ascii) : N := N_of_ascii c.

Definition between (lo hi : N) (c : ascii) : bool :=
  ((lo <=? ord c) && (ord c <=? hi))%N.

(** [str.lower] on code points below 256: A-Z and the Latin-1 capitals
    (U+00C0..U+00DE except the multiplication sign U+00D7) move up by 32. *)
Definition lower_char (c : ascii) : ascii :=
  if between 65 90 c || (between 192 222 c && negb (ord c =? 215)%N)
  then ascii_of_N (ord c + 32)
  else c.

Fixpoint lower (s : string) : string :=
  match s with
  | EmptyString => EmptyString
  | String c s' => String (lower_char c) (lower s')
  end.

(** [str.isspace] on code points below 256: TAB..CR, FS..US, space,
    NEL (U+0085) and NBSP (U+00A0). *)
Definition isspace (c : ascii) : bool :=
  between 9 13 c || between 28 32 c || (ord c =? 133)%N || (ord c =? 160)%N.

Definition is_empty (s : string) : bool :=
  match s with EmptyString => true | String _ _ => false end.

Fixpoint lstrip (s : string) : string :=
  match s with
  | EmptyString => EmptyString
  | String c s' => if isspace c then lstrip s' else s
  end.

Fixpoint rstrip (s : string) : string :=
  match s with
  | EmptyString => EmptyString
  | String c s' =>
      let r := rstrip s' in
      if isspace c && is_empty r then EmptyString else String c r
  end.

(** [s.strip()] *)
Definition strip (s : string) : string := rstrip (lstrip s).

(** [s.split()]: the maximal runs of non-whitespace characters.  [word] is
    the run being read. *)
Fixpoint split_from (word s : string) : list string :=
  match s with
  | EmptyString => if is_empty word then [] else [word]
  | String c s' =>
      if isspace c
      then if is_empty word then split_from EmptyString s'
           else word :: split_from EmptyString s'
      else split_from (word ++ String c EmptyString) s'
  end.

Definition split (s : string) : list string := split_from EmptyString s.

(** [needle in hay] for strings. *)
Fixpoint contains (needle hay : string) : bool :=
  prefix needle hay ||
  match hay with
  | EmptyString => false
  | String _ hay' => contains needle hay'
  end.

(** [sep.join(l)] *)
Definition join (sep : string) (l : list string) : string := String.concat sep l.

(** [x in l] for a list of strings. *)
Definition mem (x : string) (l : list string) : bool :=
  existsb (String.eqb x) l.

(** *** [urllib.parse.quote(s, safe='/')], which is [requests.utils.quote] *)

Definition unreserved (c : ascii) : bool :=
  between 65 90 c || between 97 122 c || between 48 57 c ||
  Ascii.eqb c "_" || Ascii.eqb c "." || Ascii.eqb c "-" || Ascii.eqb c "~".

Definition hex_digit (n : N) : ascii :=
  if (n <? 10)%N then ascii_of_N (48 + n) else ascii_of_N (55 + n).

Definition percent (byte : N) : string :=
  String "%" (String (hex_digit (byte / 16)) (String (hex_digit (byte mod 16)) EmptyString)).

(** The UTF-8 bytes of a code point below 256. *)
Definition utf8 (c : ascii) : list N :=
  let n := ord c in
  if (n <? 128)%N then [n] else [192 + n / 64; 128 + n mod 64]%N.

Definition quote_char (c : ascii) : string :=
  if unreserved c || Ascii.eqb c "/" then String c EmptyString
  else String.concat EmptyString (map percent (utf8 c)).

Fixpoint quote (s : string) : string :=
  match s with
  | EmptyString => EmptyString
  | String c s' => quote_char c ++ quote s'
  end.

End Py.

(** ** Regular expressions of the service *)

Module Re.

(** The character class [[a-zA-Z0-9_-]]. *)
Definition id_char (c : ascii) : bool :=
  Py.between 97 122 c || Py.between 65 90 c || Py.between 48 57 c ||
  Ascii.eqb c "_" || Ascii.eqb c "-".

(** [[a-zA-Z0-9_-]{n}] at the head of [s]: the text matched and the rest. *)
Fixpoint id_chars (n : nat) (s : string) : option (string * string) :=
  match n with
  | O => Some (EmptyString, s)
  | S n' =>
      match s with
      | EmptyString => None
      | String c s' =>
          if id_char c
          then match id_chars n' s' with
               | Some (m, rest) => Some (String c m, rest)
               | None => None
               end
          else None
      end
  end.

Definition newline : ascii := ascii_of_N 10.

(** [$] without MULTILINE: the end of the string, or just before a
    newline that ends it. *)
Definition at_end (s : string) : bool :=
  match s with
  | EmptyString => true
  | String c EmptyString => Ascii.eqb c newline
  | _ => false
  end.

(** [re.match(r'^[a-zA-Z0-9_-]{11}$', s)] as a boolean. *)
Definition match_video_id (s : string) : bool :=
  match id_chars 11 s with
  | Some (_, rest) => at_end rest
  | None => false
  end.

(** Drop the literal [lit] from the head of [s]. *)
Fixpoint literal (lit s : string) : option string :=
  match lit with
  | EmptyString => Some s
  | String a lit' =>
      match s with
      | EmptyString => None
      | String c s' => if Ascii.eqb a c then literal lit' s' else None
      end
  end.

(** [/watch\?v=([a-zA-Z0-9_-]{11})] at the head of [s]: group 1. *)
Definition watch_at (s : string) : option string :=
  match literal "/watch?v=" s with
  | Some rest =>
      match id_chars 11 rest with
      | Some (m, _) => Some m
      | None => None
      end
  | None => None
  end.

(** [re.findall(r'/watch\?v=([a-zA-Z0-9_-]{11})', s)]: the matches from
    left to right, none overlapping.  A match is 20 characters long, so
    after one at the head the next 19 characters are [skip]ped. *)
Fixpoint findall_watch_from (skip : nat) (s : string) : list string :=
  match s with
  | EmptyString => []
  | String _ s' =>
      match skip with
      | S k => findall_watch_from k s'
      | O =>
          match watch_at s with
          | Some m => m :: findall_watch_from 19 s'
          | None => findall_watch_from 0 s'
          end
      end
  end.

Definition findall_watch (s : string) : list string := findall_watch_from 0 s.

(** The lazy [.+?] followed by [});]: [s] starts after the first
    character of the group body.  [.] matches anything but a newline. *)
Fixpoint lazy_until_close (s : string) : option string :=
  match literal "};" s with
  | Some _ => Some EmptyString
  | None =>
      match s with
      | EmptyString => None
      | String c s' =>
          if Ascii.eqb c newline then None
          else match lazy_until_close s' with
               | Some m => Some (String c m)
               | None => None
               end
      end
  end.

(** [var ytInitialData = ({.+?});] at the head of [s]: group 1. *)
Definition initial_data_at (s : string) : option string :=
  match literal "var ytInitialData = {" s with
  | Some (String c rest) =>
      if Ascii.eqb c newline then None
      else match lazy_until_close rest with
           | Some m => Some ("{" ++ String c m ++ "}")%string
           | None => None
           end
  | _ => None
  end.

(** [re.search(r'var ytInitialData = ({.+?});', s)]: group 1 of the
    leftmost match. *)
Fixpoint search_initial_data (s : string) : option string :=
  match initial_data_at s with
  | Some g => Some g
  | None =>
      match s with
      | EmptyString => None
      | String _ s' => search_initial_data s'
      end
  end.

End Re.

(** ** Exceptions, outcomes and the state-and-exception monad *)

(** The exception classes the service can meet; all derive from Python's
    [Exception].  [HttpError] carries [e.resp.status]. *)
Inductive exn : Type :=
| HttpError (status : Z)
| Timeout
| ConnectionError
| JSONDecodeError
| KeyError
| TypeError
| AttributeError.

Inductive outcome (A : Type) : Type :=
| Ret (a : A)
| Raise (e : exn).

Arguments Ret {A} a.
Arguments Raise {A} e.

(** A computation over a state [S] that returns or raises; the state
    survives a raise, as a mutated Python object survives an exception. *)
Definition M (S A : Type) : Type := S -> outcome A * S.

Definition ret {S A : Type} (a : A) : M S A := fun s => (Ret a, s).

Definition raise {S A : Type} (e : exn) : M S A := fun s => (Raise e, s).

Definition lift {S A : Type} (o : outcome A) : M S A := fun s => (o, s).

Definition bind {S A B : Type} (m : M S A) (k : A -> M S B) : M S B :=
  fun s =>
    match m s with
    | (Ret a, s') => k a s'
    | (Raise e, s') => (Raise e, s')
    end.

(** [try: body except Exception as e: handler e] *)
Definition try_except {S A : Type} (body : M S A) (handler : exn -> M S A) : M S A :=
  fun s =>
    match body s with
    | (Ret a, s') => (Ret a, s')
    | (Raise e, s') => handler e s'
    end.

Declare Scope py_scope.
Delimit Scope py_scope with py.
Notation "x <- m ;; k" := (bind m (fun x => k))
  (at level 61, m at next level, right associativity) : py_scope.
Notation "m ;;; k" := (bind m (fun _ => k))
  (at level 61, right associativity) : py_scope.

(** How one pass through a loop body ends: it falls off the end or says
    [continue], it says [break], or it says [return r]. *)
Inductive ctl (R : Type) : Type :=
| Continue
| Break
| Return (r : R).

Arguments Continue {R}.
Arguments Break {R}.
Arguments Return {R} r.

(** [for x in xs: body x].  [None] when the loop ends without [return]. *)
Fixpoint for_each {S X R : Type} (xs : list X) (body : X -> M S (ctl R)) : M S (option R) :=
  match xs with
  | [] => ret None
  | x :: xs' =>
      (c <- body x ;;
       match c with
       | Continue => for_each xs' body
       | Break => ret None
       | Return r => ret (Some r)
       end)%py
  end.

(** ** JSON values as [json.loads] returns them *)

Module Json.

Local Unset Elimination Schemes.

(** A [dict] is the list of its entries in insertion order, keys distinct. *)
Inductive json : Type :=
| JNull
| JBool (b : bool)
| JInt (z : Z)
| JFloat (f : float)
| JStr (s : string)
| JList (l : list json)
| JDict (d : list (string * json)).

Local Set Elimination Schemes.

(** Truth value of a Python object. *)
Definition truthy (v : json) : bool :=
  match v with
  | JNull => false
  | JBool b => b
  | JInt z => negb (z =? 0)%Z
  | JFloat f => negb (PrimFloat.eqb f PrimFloat.zero)
  | JStr s => negb (Py.is_empty s)
  | JList l => match l with [] => false | _ :: _ => true end
  | JDict d => match d with [] => false | _ :: _ => true end
  end.

Fixpoint lookup (key : string) (d : list (string * json)) : option json :=
  match d with
  | [] => None
  | (k, v) :: d' => if String.eqb k key then Some v else lookup key d'
  end.

(** [v.get(key, default)]; only a dict has [get]. *)
Definition get (v : json) (key : string) (default : json) : outcome json :=
  match v with
  | JDict d => Ret (match lookup key d with Some x => x | None => default end)
  | _ => Raise AttributeError
  end.

(** The elements [for x in v] goes through: a list's elements, a dict's
    keys, a string's characters; other values are not iterable. *)
Definition iter (v : json) : outcome (list json) :=
  match v with
  | JList l => Ret l
  | JDict d => Ret (map (fun kv => JStr (fst kv)) d)
  | JStr s => Ret (map (fun c => JStr (String c EmptyString)) (list_ascii_of_string s))
  | _ => Raise TypeError
  end.

End Json.
Import Json.

(** ** The outside world *)

(** A request the service issued: [request.execute()] of an API search
    with [q=query], or [session.get(url, timeout=15)]. *)
Inductive event : Type :=
| ApiCall (query : string)
| HttpGet (url : string).

(** One entry of [response['items']].  [item_videoId] is
    [item['id']['videoId']], absent when either key is; the other two are
    the snippet's title and description, absent when the key (or the
    snippet) is. *)
Record item : Type := mkItem {
  item_videoId : option string;
  snippet_title : option string;
  snippet_description : option string
}.

(** The API's answer: [response['items']], absent when the key is. *)
Definition api_response : Type := option (list item).

(** An HTTP response: [status_code] and [text]. *)
Record http_response : Type := mkHttp {
  status_code : Z;
  text : string
}.

(** What the world answers, given the requests made so far.  The answers
    are arbitrary: any of them may be an exception. *)
Record world : Type := mkWorld {
  api_execute : list event -> string -> outcome api_response;
  session_get : list event -> string -> outcome http_response;
  json_loads : string -> outcome json
}.

(** The handle [build('youtube', 'v3', developerKey=...)] returns. *)
Inductive api_client : Type := Resource.

(** ** The service *)

Record YouTubeService : Type := mkService {
  api_key : string;
  youtube_api : option api_client
}.

(** [YouTubeService.__init__]: [env_key] is
    [os.getenv("YOUTUBE_API_KEY", "")], [available] is
    [YOUTUBE_API_AVAILABLE] and [build] is the outcome of the call to
    [build]. *)
Definition init (env_key : string) (available : bool) (build : outcome api_client)
  : YouTubeService :=
  {| api_key := env_key;
     youtube_api :=
       if negb (Py.is_empty env_key) && available
       then match build with
            | Ret client => Some client
            | Raise _ => None
            end
       else None |}.

Definition invalid_patterns : list string :=
  ["AAAAAAAAAAA"; "undefined"; "null"; "true"; "false"].

(** [_is_valid_video_id] on a [str]. *)
Definition _is_valid_video_id (video_id : string) : bool :=
  if Py.is_empty video_id || negb (String.length video_id =? 11)%nat then false
  else if negb (Re.match_video_id video_id) then false
  else if Py.mem video_id invalid_patterns then false
  else true.

(** [_is_valid_video_id] on whatever [json.loads] produced: [len] raises
    on numbers and booleans, [re.match] on lists and dicts. *)
Definition _is_valid_video_id_dyn (video_id : json) : outcome bool :=
  if negb (truthy video_id) then Ret false
  else match video_id with
       | JStr s => Ret (_is_valid_video_id s)
       | JList l => if negb (List.length l =? 11)%nat then Ret false else Raise TypeError
       | JDict d => if negb (List.length d =? 11)%nat then Ret false else Raise TypeError
       | _ => Raise TypeError
       end.

Definition append (video_id : json) : M (list string) unit :=
  fun video_ids =>
    match video_id with
    | JStr s => (Ret tt, video_ids ++ [s])
    | _ => (Ret tt, video_ids)
    end.

Section Service.

Variable w : world.

Local Open Scope py_scope.

(** *** [_extract_video_ids_from_json] *)

(** The body of [for item in items]; the state is [video_ids]. *)
Definition extract_item (item : json) : M (list string) (ctl unit) :=
  video_renderer <- lift (get item "videoRenderer" (JDict [])) ;;
  if truthy video_renderer then
    video_id <- lift (get video_renderer "videoId" JNull) ;;
    if truthy video_id then
      ok <- lift (_is_valid_video_id_dyn video_id) ;;
      if ok : bool then append video_id ;;; ret Continue else ret Continue
    else ret Continue
  else ret Continue.

(** The body of [for content in contents_list]. *)
Definition extract_content (content : json) : M (list string) (ctl unit) :=
  item_section <- lift (get content "itemSectionRenderer" (JDict [])) ;;
  items <- lift (get item_section "contents" (JList [])) ;;
  items <- lift (iter items) ;;
  for_each items extract_item ;;;
  ret Continue.

Definition extract_body (text : string) : M (list string) unit :=
  match Re.search_initial_data text with
  | Some group1 =>
      data <- lift (json_loads w group1) ;;
      contents <- lift (get data "contents" (JDict [])) ;;
      two_column_search <- lift (get contents "twoColumnSearchResultsRenderer" (JDict [])) ;;
      primary_contents <- lift (get two_column_search "primaryContents" (JDict [])) ;;
      section_list <- lift (get primary_contents "sectionListRenderer" (JDict [])) ;;
      contents_list <- lift (get section_list "contents" (JList [])) ;;
      contents_list <- lift (iter contents_list) ;;
      for_each contents_list extract_content ;;;
      ret tt
  | None => ret tt
  end.

Definition _extract_video_ids_from_json (text : string) : list string :=
  snd (try_except (extract_body text) (fun _ => ret tt) []).

(** *** [_search_with_api] *)

(** [request.execute()]: the call is logged, whatever its outcome. *)
Definition execute (search_query : string) : M (list event) api_response :=
  fun log => (api_execute w log search_query, log ++ [ApiCall search_query]).

(** [" ".join(artists[:2]) if artists else ""] *)
Definition artist_str_of (artists : list string) : string :=
  match artists with
  | [] => ""
  | _ :: _ => Py.join " " (firstn 2 artists)
  end.

Definition api_queries (song_title artist_str : string) : list string :=
  [ song_title ++ " " ++ artist_str ++ " official audio";
    song_title ++ " " ++ artist_str ++ " official";
    song_title ++ " " ++ artist_str;
    song_title ++ " " ++ artist_str ++ " music" ]%string.

Definition non_music_keywords : list string :=
  ["#shorts"; "playlist"; "mix"; "compilation"].

(** [dict.get(key, '')] on a snippet. *)
Definition get_or_empty (o : option string) : string :=
  match o with Some s => s | None => "" end.

(** In the next three, [title] and [description] are the lower-cased
    snippet fields. *)
Definition title_match (song_title title : string) : bool :=
  let song_title_lower := Py.lower song_title in
  Py.contains song_title_lower title ||
  existsb (fun word => Py.contains word title)
          (filter (fun word => (3 <? String.length word)%nat) (Py.split song_title_lower)).

Definition artist_match (artist_str : string) (artists : list string)
           (title description : string) : bool :=
  Py.is_empty artist_str ||
  existsb (fun artist => Py.contains (Py.lower artist) title ||
                         Py.contains (Py.lower artist) description)
          (firstn 2 artists).

Definition is_official (title : string) : bool :=
  Py.contains "official" title || Py.contains "official audio" title ||
  Py.contains "official video" title.

Definition filtered_out (title : string) : bool :=
  let title_lower := Py.lower title in
  existsb (fun keyword => Py.contains keyword title_lower) non_music_keywords.

(** The body of [for item in response['items']]. *)
Definition api_item (song_title artist_str : string) (artists : list string)
           (it : item) : outcome (ctl string) :=
  match item_videoId it with
  | None => Raise KeyError
  | Some video_id =>
      let title := Py.lower (get_or_empty (snippet_title it)) in
      let description := Py.lower (get_or_empty (snippet_description it)) in
      if negb (_is_valid_video_id video_id) then Ret Continue
      else if filtered_out title then Ret Continue
      else if is_official title &&
              (title_match song_title title ||
               artist_match artist_str artists title description)
           then Ret (Return video_id)
      else if title_match song_title title &&
              artist_match artist_str artists title description
           then Ret (Return video_id)
      else Ret Continue
  end.

(** "If no perfect match, return first result". *)
Definition api_first_result (items : list item) : outcome (ctl string) :=
  match items with
  | [] => Ret Continue
  | first :: _ =>
      match item_videoId first with
      | None => Raise KeyError
      | Some video_id =>
          if _is_valid_video_id video_id then Ret (Return video_id) else Ret Continue
      end
  end.

(** What is done with the response of one query. *)
Definition api_response_body (song_title artist_str : string) (artists : list string)
           (response : api_response) : M (list event) (ctl string) :=
  match response with
  | Some items =>
      if (0 <? List.length items)%nat then
        found <- for_each items (fun it => lift (api_item song_title artist_str artists it)) ;;
        match found with
        | Some video_id => ret (Return video_id)
        | None => lift (api_first_result items)
        end
      else ret Continue
  | None => ret Continue
  end.

(** The body of [for search_query in queries], with its handlers. *)
Definition api_variant (song_title artist_str : string) (artists : list string)
           (search_query : string) : M (list event) (ctl string) :=
  try_except
    (response <- execute search_query ;;
     api_response_body song_title artist_str artists response)
    (fun e =>
       match e with
       | HttpError status => if (status =? 403)%Z then ret Break else ret Continue
       | _ => ret Continue
       end).

Definition _search_with_api (song_title : string) (artists : list string)
  : M (list event) (option string) :=
  try_except
    (let artist_str := artist_str_of artists in
     for_each (api_queries song_title artist_str)
              (api_variant song_title artist_str artists))
    (fun _ => ret None).

(** *** [_search_with_scraping] *)

(** [session.get(search_url, timeout=15)]: logged, whatever its outcome. *)
Definition get_url (search_url : string) : M (list event) http_response :=
  fun log => (session_get w log search_url, log ++ [HttpGet search_url]).

Definition scraping_queries (song_title artist_str : string) : list string :=
  [ song_title ++ " " ++ artist_str ++ " official audio";
    song_title ++ " " ++ artist_str ++ " official";
    song_title ++ " " ++ artist_str ++ " music";
    song_title ++ " " ++ artist_str ]%string.

Definition search_url_of (search_query : string) : string :=
  "https://www.youtube.com/results?search_query=" ++ Py.quote search_query.

(** [if ids: for vid_id in ids: if self._is_valid_video_id(vid_id): return vid_id] *)
Definition first_valid (ids : list string) : option string :=
  match ids with
  | [] => None
  | _ :: _ => find _is_valid_video_id ids
  end.

(** What is done with the text of a 200 response. *)
Definition scrape_text (text : string) : ctl string :=
  let video_ids := _extract_video_ids_from_json text in
  match first_valid video_ids with
  | Some vid_id => Return vid_id
  | None =>
      let watch_matches := Re.findall_watch text in
      match first_valid watch_matches with
      | Some vid_id => Return vid_id
      | None => Continue
      end
  end.

(** The body of [for search_query in queries], with its handlers. *)
Definition scrape_variant (search_query : string) : M (list event) (ctl string) :=
  try_except
    (let search_query := Py.strip search_query in
     if Py.is_empty search_query then ret Continue
     else
       let search_url := search_url_of search_query in
       response <- get_url search_url ;;
       if (status_code response =? 200)%Z
       then ret (scrape_text (text response))
       else ret Continue)
    (fun e =>
       match e with
       | Timeout => ret Continue
       | _ => ret Continue
       end).

Definition _search_with_scraping (song_title : string) (artists : list string)
  : M (list event) (option string) :=
  if Py.is_empty song_title || Py.is_empty (Py.strip song_title) then ret None
  else
    try_except
      (let artist_str := artist_str_of artists in
       for_each (scraping_queries song_title artist_str) scrape_variant)
      (fun _ => ret None).

(** *** [search_video_id] *)

Definition search_video_id (self : YouTubeService) (song_title : string)
           (artists : list string) : M (list event) (option string) :=
  match youtube_api self with
  | Some _ => _search_with_api song_title artists
  | None => _search_with_scraping song_title artists
  end.

End Service.

(** ** URL builders *)

Definition embed_params : list string :=
  [ "autoplay=0";
    "enablejsapi=1";
    "origin=" ++ Py.quote "http://localhost:8000";
    "rel=0";
    "modestbranding=1";
    "iv_load_policy=3";
    "fs=0";
    "playsinline=1";
    "controls=0";
    "disablekb=1";
    "cc_load_policy=0";
    "loop=0";
    "mute=0";
    "start=0" ]%string.

Definition get_embed_url (self : YouTubeService) (video_id : string) : string :=
  "https://www.youtube-nocookie.com/embed/" ++ video_id ++ "?" ++ Py.join "&" embed_params.

Definition get_watch_url (self : YouTubeService) (video_id : string) : string :=
  "https://www.youtube.com/watch?v=" ++ video_id.

(** ** Reaching a loop iteration *)

(** [loop_reaches body xs s ys s']: the loop over [xs] started in state
    [s] gets to its remaining elements [ys] in state [s'], every
    iteration before having ended without [return], [break] or an
    exception. *)
Inductive loop_reaches {S X R : Type} (body : X -> M S (ctl R))
  : list X -> S -> list X -> S -> Prop :=
| reaches_here (xs : list X) (s : S) : loop_reaches body xs s xs s
| reaches_next (x : X) (xs ys : list X) (s s1 s' : S) :
    body x s = (Ret Continue, s1) ->
    loop_reaches body xs s1 ys s' ->
    loop_reaches body (x :: xs) s ys s'.

(** ** Test doubles *)

Module Doubles.

(** A world that answers nothing: no API items, 404 pages, no JSON. *)
Definition silent : world :=
  {| api_execute := fun _ _ => Ret None;
     session_get := fun _ _ => Ret (mkHttp 404 "");
     json_loads := fun _ => Raise JSONDecodeError |}.

(** The API answers [answer q] to query [q]. *)
Definition api_world (answer : string -> outcome api_response) : world :=
  {| api_execute := fun _ q => answer q;
     session_get := session_get silent;
     json_loads := json_loads silent |}.

(** Every page is a 200 with body [body]. *)
Definition page_world (body : string) : world :=
  {| api_execute := api_execute silent;
     session_get := fun _ _ => Ret (mkHttp 200 body);
     json_loads := json_loads silent |}.

Definition with_api : YouTubeService := init "key" true (Ret Resource).
Definition without_api : YouTubeService := init "" true (Ret Resource).

Definition candidate (video_id title description : string) : item :=
  mkItem (Some video_id) (Some title) (Some description).

End Doubles.

(** ** Notions the properties are stated with *)

(** The format the check stands for: eleven characters of
    [[a-zA-Z0-9_-]], and none of the placeholder strings. *)
Definition well_formed_id (video_id : string) : Prop :=
  String.length video_id = 11 /\
  Forall (fun c => Re.id_char c = true) (list_ascii_of_string video_id) /\
  ~ In video_id ["AAAAAAAAAAA"; "undefined"; "null"; "true"; "false"].

(** The next definitions are views of the two loop bodies: what an
    iteration decides, apart from the request it logs.  [api_variant_eq]
    and [scrape_variant_eq] relate them to the code. *)

Section Views.

Variable w : world.

(** What the handlers of the API loop make of an exception. *)
Definition api_handler (e : exn) : ctl string :=
  match e with
  | HttpError status => if (status =? 403)%Z then Break else Continue
  | _ => Continue
  end.

Definition api_verdict (song_title artist_str : string) (artists : list string)
           (log : list event) (search_query : string) : ctl string :=
  match api_execute w log search_query with
  | Ret response =>
      match fst (api_response_body song_title artist_str artists response []) with
      | Ret c => c
      | Raise e => api_handler e
      end
  | Raise e => api_handler e
  end.

Definition scrape_verdict (log : list event) (search_query : string) : ctl string :=
  match session_get w log (search_url_of (Py.strip search_query)) with
  | Ret response =>
      if (status_code response =? 200)%Z then scrape_text w (text response) else Continue
  | Raise _ => Continue
  end.

End Views.

(** Every character of the string is whitespace (none, for the empty string). *)
Definition whitespace_only (s : string) : bool :=
  forallb Py.isspace (list_ascii_of_string s).

Definition is_api_call (e : event) : Prop :=
  match e with ApiCall _ => True | HttpGet _ => False end.

Definition is_http_get (e : event) : Prop :=
  match e with ApiCall _ => False | HttpGet _ => True end.

(** A search result: none, or an ID that passes the format check. *)
Definition id_or_none (r : option string) : Prop :=
  match r with
  | None => True
  | Some video_id => _is_valid_video_id video_id = true
  end.

(** [keeps P m]: running [m] in a state where [P] holds leaves a state
    where [P] holds, whether [m] returns or raises. *)
Definition keeps {S A : Type} (P : S -> Prop) (m : M S A) : Prop :=
  forall s, P s -> P (snd (m s)).

Module Scenarios.

Import Doubles.

(** A results page with one watch link and no [ytInitialData] block. *)
Definition watch_page : world := page_world "<a href=/watch?v=dQw4w9WgXcQ>".

(** The first query draws a blank; every later one is refused. *)
Definition quota_world : world :=
  api_world (fun q => if String.eqb q "Song Art official audio"
                      then Ret None
                      else Raise (HttpError 403)).

(** The first page is an empty 200; every later page has one watch link. *)
Definition empty_then_watch : world :=
  {| api_execute := api_execute silent;
     session_get := fun log _ =>
       match log with
       | [] => Ret (mkHttp 200 "")
       | _ :: _ => Ret (mkHttp 200 "<a href=/watch?v=dQw4w9WgXcQ>")
       end;
     json_loads := json_loads silent |}.

(** What [json.loads] makes of a results page: the known nesting, with
    a placeholder ID, an entry that is no video, a good ID, a number
    where an ID should be, and one more good ID. *)
Definition under (key : string) (v : json) : json := JDict [(key, v)].

Definition renderer (video_id : json) : json :=
  under "videoRenderer" (under "videoId" video_id).

Definition initial_data : json :=
  under "contents"
    (under "twoColumnSearchResultsRenderer"
       (under "primaryContents"
          (under "sectionListRenderer"
             (under "contents"
                (JList
                   [under "itemSectionRenderer"
                      (under "contents"
                         (JList [ renderer (JStr "undefined");
                                  under "adRenderer" (JDict []);
                                  renderer (JStr "dQw4w9WgXcQ");
                                  renderer (JInt 7);
                                  renderer (JStr "ZZZZZZZZZZZ") ]))]))))).

(** Every page is a 200 with [body]; [json.loads] gives [data]. *)
Definition json_world (data : json) (body : string) : world :=
  {| api_execute := api_execute silent;
     session_get := fun _ _ => Ret (mkHttp 200 body);
     json_loads := fun _ => Ret data |}.

End Scenarios.

Module Cases.

Import Doubles.



Definition official : item := candidate "OFFICIAL001" "Art - Song (Official Audio)" "".


(** A cover that matches neither title nor artist, then the official
    upload, then the lyrics upload. *)
Definition cover : item := candidate "COVER000001" "Piano cover" "".


(** The only result is a short. *)
Definition short : item := candidate "abcdefghijk" "Song Title #shorts" "".

Definition shorts_world : world :=
  api_world (fun _ => Ret (Some [short])).

End Cases.

Definition all_valid (video_ids : list string) : Prop :=
  Forall (fun v => _is_valid_video_id v = true) video_ids.

(** The number of API calls in a log. *)
Definition api_call_count (log : list event) : nat :=
  List.length (filter (fun e => match e with ApiCall _ => true | HttpGet _ => false end) log).

(** ** Shapes of a loaded results page *)

(** [entry_view item o]: [item] is a dict that, for [o = Some s], has
    under "videoRenderer" a dict with the string [s] under "videoId",
    and for [o = None] has no "videoRenderer", or one without "videoId". *)
Inductive entry_view : json -> option string -> Prop :=
| entry_video d dv s :
    lookup "videoRenderer" d = Some (JDict dv) ->
    lookup "videoId" dv = Some (JStr s) ->
    entry_view (JDict d) (Some s)
| entry_other d :
    lookup "videoRenderer" d = None ->
    entry_view (JDict d) None
| entry_no_id d dv :
    lookup "videoRenderer" d = Some (JDict dv) ->
    lookup "videoId" dv = None ->
    entry_view (JDict d) None.

(** [entry_broken item]: reading [item] raises: it is no dict, or its
    "videoRenderer" is a truthy value that is no dict, or its "videoId"
    is a truthy value on which the format check raises. *)
Inductive entry_broken : json -> Prop :=
| broken_entry v :
    (forall d, v <> JDict d) ->
    entry_broken v
| broken_renderer d v :
    lookup "videoRenderer" d = Some v ->
    truthy v = true ->
    (forall dv, v <> JDict dv) ->
    entry_broken (JDict d)
| broken_id d dv v e :
    lookup "videoRenderer" d = Some (JDict dv) ->
    lookup "videoId" dv = Some v ->
    truthy v = true ->
    _is_valid_video_id_dyn v = Raise e ->
    entry_broken (JDict d).

(** [section_view content items]: [content] is a dict with the list
    [items] under "itemSectionRenderer" / "contents", or (for no items)
    a dict without "itemSectionRenderer". *)
Inductive section_view : json -> list json -> Prop :=
| section_items d ds items :
    lookup "itemSectionRenderer" d = Some (JDict ds) ->
    lookup "contents" ds = Some (JList items) ->
    section_view (JDict d) items
| section_other d :
    lookup "itemSectionRenderer" d = None ->
    section_view (JDict d) [].

(** [page_view data sections]: [data] has the list [sections] under
    "contents" / "twoColumnSearchResultsRenderer" / "primaryContents" /
    "sectionListRenderer" / "contents". *)
Inductive page_view : json -> list json -> Prop :=
| page_sections d0 d1 d2 d3 d4 sections :
    lookup "contents" d0 = Some (JDict d1) ->
    lookup "twoColumnSearchResultsRenderer" d1 = Some (JDict d2) ->
    lookup "primaryContents" d2 = Some (JDict d3) ->
    lookup "sectionListRenderer" d3 = Some (JDict d4) ->
    lookup "contents" d4 = Some (JList sections) ->
    page_view (JDict d0) sections.

(** The strings of a list of optional strings, in order. *)
Definition present (l : list (option string)) : list string :=
  flat_map (fun o => match o with Some s => [s] | None => [] end) l.

Module Pages.

Import Scenarios.

(** A page of the expected shape: a section with a placeholder ID, an
    entry that is no video, and two good IDs; and a section of another kind. *)
Definition clean_items : list json :=
  [ renderer (JStr "undefined");
    under "adRenderer" (JDict []);
    renderer (JStr "dQw4w9WgXcQ");
    renderer (JStr "ZZZZZZZZZZZ") ].

Definition clean_sections : list json :=
  [ under "itemSectionRenderer" (under "contents" (JList clean_items));
    under "continuationItemRenderer" (JDict []) ].

Definition page_of (sections : list json) : json :=
  under "contents"
    (under "twoColumnSearchResultsRenderer"
       (under "primaryContents"
          (under "sectionListRenderer"
             (under "contents" (JList sections))))).

Definition clean_data : json := page_of clean_sections.

(** The same with a number where the second good ID should be, and a
    further section after it. *)
Definition broken_items : list json :=
  [ renderer (JStr "dQw4w9WgXcQ");
    renderer (JInt 7);
    renderer (JStr "ZZZZZZZZZZZ") ].

Definition broken_data : json :=
  page_of [ under "itemSectionRenderer" (under "contents" (JList [renderer (JStr "abcdefghijk")]));
            under "itemSectionRenderer" (under "contents" (JList broken_items));
            under "itemSectionRenderer" (under "contents" (JList [renderer (JStr "YYYYYYYYYYY")])) ].

End Pages.

(** A character [quote] leaves in its output: unreserved, a slash, or
    the percent sign of an escape. *)
Definition url_safe (c : ascii) : bool :=
  Py.unreserved c || Ascii.eqb c "/" || Ascii.eqb c "%".

(** ** The singleton (src/services/youtube_service.py) *)

(** What [YouTubeService.__init__] finds when it runs: the value of
    [os.getenv("YOUTUBE_API_KEY", "")], the module flag
    [YOUTUBE_API_AVAILABLE] and the outcome of [build]. *)
Record environment : Type := mkEnv {
  env_youtube_api_key : string;
  env_api_available : bool;
  env_build : outcome api_client
}.

(** [YouTubeService()] *)
Definition new_service (env : environment) : YouTubeService :=
  init (env_youtube_api_key env) (env_api_available env) (env_build env).

(** [get_youtube_service]; the state is the module global
    [_youtube_service]. *)
Definition get_youtube_service (env : environment) (_youtube_service : option YouTubeService)
  : YouTubeService * option YouTubeService :=
  match _youtube_service with
  | None => let service := new_service env in (service, Some service)
  | Some service => (service, Some service)
  end.

(** ** The database URL (src/database/models.py) *)

Module Database.

(** The two messages [get_database_url] prints in the SQLite fallback
    (lines 156 and 157). *)
Inductive message : Type :=
| NoCredentialsWarning
| SetVariablesHint.

(** The process environment, the outcome of [print(message)] and of
    [os.makedirs(path, exist_ok=True)] ([true] when the call returns,
    [false] when it raises) and [os.path.join]. *)
Record os_world : Type := mkOs {
  environ : string -> option string;
  print : message -> bool;
  makedirs : string -> bool;
  path_join : string -> string -> string
}.

(** A call returns, or [os.makedirs] raised ([OSError]), or a [print]
    raised ([PrintError]: an encoding error, a closed stream, ...). *)
Inductive os_outcome (A : Type) : Type :=
| Done (a : A)
| OSError
| PrintError.

Arguments Done {A} a.
Arguments OSError {A}.
Arguments PrintError {A}.

(** [os.getenv(name, default)] *)
Definition getenv_or (os : os_world) (name default : string) : string :=
  match environ os name with
  | Some v => v
  | None => default
  end.

(** [if os.getenv(name):] binds the value when it is set and not empty. *)
Definition getenv_truthy (os : os_world) (name : string) : option string :=
  match environ os name with
  | Some v => if Py.is_empty v then None else Some v
  | None => None
  end.

(** [s.replace(old, new, 1)] for a non-empty [old]. *)
Fixpoint replace_first (old new s : string) : string :=
  match Re.literal old s with
  | Some rest => new ++ rest
  | None =>
      match s with
      | EmptyString => EmptyString
      | String c s' => String c (replace_first old new s')
      end
  end.

(** [get_database_url]: what it returns, and the directories it had
    [os.makedirs] make. *)
Definition get_database_url (os : os_world) : os_outcome string * list string :=
  match getenv_truthy os "DATABASE_URL" with
  | Some db_url =>
      if prefix "postgres://" db_url
      then (Done (replace_first "postgres://" "postgresql://" db_url), [])
      else (Done db_url, [])
  | None =>
      let db_host := getenv_or os "DB_HOST" "localhost" in
      let db_port := getenv_or os "DB_PORT" "5432" in
      let db_name := getenv_or os "DB_NAME" "aura_music" in
      let db_user := getenv_or os "DB_USER" "postgres" in
      match getenv_truthy os "DB_PASSWORD" with
      | Some db_password =>
          (Done ("postgresql://" ++ db_user ++ ":" ++ db_password ++ "@" ++ db_host
                 ++ ":" ++ db_port ++ "/" ++ db_name)%string, [])
      | None =>
          if negb (print os NoCredentialsWarning) then (PrintError, [])
          else if negb (print os SetVariablesHint) then (PrintError, [])
          else
            let data_dir := getenv_or os "DATA_DIR" "data" in
            if makedirs os data_dir
            then (Done ("sqlite:///" ++ path_join os data_dir "aura.db")%string, [data_dir])
            else (OSError, [data_dir])
      end
  end.

(** The keyword arguments [create_engine] is called with. *)
Record engine_args : Type := mkEngine {
  url : string;
  check_same_thread : option bool;
  pool_pre_ping : option bool;
  pool_size : option Z;
  max_overflow : option Z;
  echo : bool
}.

(** [create_engine_instance], up to the call of [create_engine]. *)
Definition create_engine_instance (os : os_world) : os_outcome engine_args * list string :=
  match get_database_url os with
  | (Done database_url, made) =>
      if prefix "sqlite" database_url
      then (Done {| url := database_url;
                    check_same_thread := Some false;
                    pool_pre_ping := None;
                    pool_size := None;
                    max_overflow := None;
                    echo := false |}, made)
      else (Done {| url := database_url;
                    check_same_thread := None;
                    pool_pre_ping := Some true;
                    pool_size := Some 5%Z;
                    max_overflow := Some 10%Z;
                    echo := false |}, made)
  | (OSError, made) => (OSError, made)
  | (PrintError, made) => (PrintError, made)
  end.

(** An environment with the given variables and nothing else, where
    [print] and [os.makedirs] succeed and paths join with a slash. *)
Definition os_with (vars : list (string * string)) : os_world :=
  {| environ := fun name =>
       match find (fun kv => String.eqb (fst kv) name) vars with
       | Some kv => Some (snd kv)
       | None => None
       end;
     print := fun _ => true;
     makedirs := fun _ => true;
     path_join := fun a b => (a ++ "/" ++ b)%string |}.

End Database.


(** * Properties *)

(** ** Loops *)

Section LoopFacts.

Context {S X R : Type}.
Variable body : X -> M S (ctl R).

Lemma for_each_continue x xs s s1 :
  body x s = (Ret Continue, s1) ->
  for_each (x :: xs) body s = for_each xs body s1.
Proof. intros H. simpl. unfold bind. rewrite H. reflexivity. Qed.

Lemma for_each_return x xs s s1 r :
  body x s = (Ret (Return r), s1) ->
  for_each (x :: xs) body s = (Ret (Some r), s1).
Proof. intros H. simpl. unfold bind. rewrite H. reflexivity. Qed.

Lemma for_each_break x xs s s1 :
  body x s = (Ret Break, s1) ->
  for_each (x :: xs) body s = (Ret None, s1).
Proof. intros H. simpl. unfold bind. rewrite H. reflexivity. Qed.

Lemma for_each_raise x xs s s1 e :
  body x s = (Raise e, s1) ->
  for_each (x :: xs) body s = (Raise e, s1).
Proof. intros H. simpl. unfold bind. rewrite H. reflexivity. Qed.

Lemma for_each_reaches xs s ys s' :
  loop_reaches body xs s ys s' ->
  for_each xs body s = for_each ys body s'.
Proof.
  induction 1 as [|x xs ys s s1 s' Hx _ IH]; [reflexivity|].
  rewrite (for_each_continue _ _ _ _ Hx). exact IH.
Qed.

(** A value the loop returns is one its body returned. *)
Lemma for_each_returns (P : R -> Prop) :
  (forall x s r s', body x s = (Ret (Return r), s') -> P r) ->
  forall xs s r s', for_each xs body s = (Ret (Some r), s') -> P r.
Proof.
  intros Hbody. induction xs as [|x xs IH]; intros s r s' H.
  - discriminate H.
  - simpl in H. unfold bind in H.
    destruct (body x s) as [[[| |r0]|e] s1] eqn:Hx.
    + eapply IH; eassumption.
    + discriminate H.
    + unfold ret in H. injection H as -> ->. eapply Hbody; eassumption.
    + discriminate H.
Qed.

(** A loop whose body never raises never raises. *)
Lemma for_each_total :
  (forall x s, exists c s', body x s = (Ret c, s')) ->
  forall xs s, exists r s', for_each xs body s = (Ret r, s').
Proof.
  intros Hbody. induction xs as [|x xs IH]; intros s.
  - exists None, s. reflexivity.
  - destruct (Hbody x s) as (c & s1 & Hx).
    destruct c as [| |r].
    + rewrite (for_each_continue _ _ _ _ Hx). apply IH.
    + rewrite (for_each_break _ _ _ _ Hx). eauto.
    + rewrite (for_each_return _ _ _ _ _ Hx). eauto.
Qed.

(** A reflexive, transitive relation between the states before and
    after the body also holds across the loop. *)
Lemma for_each_state (I : S -> S -> Prop) :
  (forall s, I s s) ->
  (forall a b c, I a b -> I b c -> I a c) ->
  (forall x s, I s (snd (body x s))) ->
  forall xs s, I s (snd (for_each xs body s)).
Proof.
  intros Hrefl Htrans Hbody. induction xs as [|x xs IH]; intros s.
  - apply Hrefl.
  - simpl. unfold bind. specialize (Hbody x s).
    destruct (body x s) as [[[| |r]|e] s1]; simpl in *; auto.
    eapply Htrans; [exact Hbody | apply IH].
Qed.

End LoopFacts.

(** ** The format check *)

Lemma length_append (a b : string) :
  String.length (a ++ b) = String.length a + String.length b.
Proof. induction a as [|c a IH]; simpl; [reflexivity | now rewrite IH]. Qed.

Lemma append_empty_r (a : string) : (a ++ "")%string = a.
Proof. induction a as [|c a IH]; simpl; [reflexivity | now rewrite IH]. Qed.

Lemma id_chars_sound n : forall s m rest,
  Re.id_chars n s = Some (m, rest) ->
  s = (m ++ rest)%string /\ String.length m = n /\
  Forall (fun c => Re.id_char c = true) (list_ascii_of_string m).
Proof.
  induction n as [|n IH]; intros s m rest H; simpl in H.
  - injection H as <- <-. repeat split. constructor.
  - destruct s as [|c s]; [discriminate|].
    destruct (Re.id_char c) eqn:Hc; [|discriminate].
    destruct (Re.id_chars n s) as [[m' rest']|] eqn:Hn; [|discriminate].
    injection H as <- <-.
    destruct (IH _ _ _ Hn) as (-> & Hlen & Hall).
    repeat split; simpl; [now rewrite Hlen | now constructor].
Qed.

Lemma id_chars_complete : forall s,
  Forall (fun c => Re.id_char c = true) (list_ascii_of_string s) ->
  Re.id_chars (String.length s) s = Some (s, ""%string).
Proof.
  induction s as [|c s IH]; intros H; simpl.
  - reflexivity.
  - inversion H as [|? ? Hc Hs]; subst. rewrite Hc, (IH Hs). reflexivity.
Qed.

Lemma mem_In x l : Py.mem x l = true <-> In x l.
Proof.
  unfold Py.mem. rewrite existsb_exists. split.
  - intros (y & Hy & E). apply String.eqb_eq in E. now subst.
  - intros H. exists x. split; [assumption | apply String.eqb_refl].
Qed.

(** [_is_valid_video_id] decides exactly the format. *)
Lemma is_valid_video_id_iff video_id :
  _is_valid_video_id video_id = true <-> well_formed_id video_id.
Proof.
  unfold _is_valid_video_id, well_formed_id. fold invalid_patterns.
  remember (Py.mem video_id invalid_patterns) as bad eqn:Hmem. symmetry in Hmem.
  split.
  - destruct (Py.is_empty video_id); simpl; [discriminate|].
    destruct (String.length video_id =? 11)%nat eqn:Hlen; simpl; [|discriminate].
    apply Nat.eqb_eq in Hlen.
    unfold Re.match_video_id.
    destruct (Re.id_chars 11 video_id) as [[m rest]|] eqn:Hm; simpl; [|discriminate].
    destruct (Re.at_end rest) eqn:Hend; simpl; [|discriminate].
    destruct bad; simpl; [discriminate|].
    intros _. apply id_chars_sound in Hm. destruct Hm as (E & Hm & Hall).
    assert (rest = ""%string) as ->.
    { subst video_id. rewrite length_append, Hm in Hlen.
      destruct rest; [reflexivity | simpl in Hlen; lia]. }
    rewrite append_empty_r in E. subst m.
    repeat split; try assumption.
    intros Hin. apply (proj2 (mem_In video_id invalid_patterns)) in Hin. congruence.
  - intros (Hlen & Hall & Hnot).
    destruct video_id as [|c s]; [discriminate Hlen|]. simpl Py.is_empty.
    rewrite Hlen. simpl.
    unfold Re.match_video_id. rewrite <- Hlen, (id_chars_complete _ Hall). simpl.
    destruct bad; [|reflexivity].
    apply mem_In in Hmem. contradiction.
Qed.

(** ** The monad *)

Lemma for_each_lift {S X R : Type} (f : X -> outcome (ctl R)) (xs : list X) :
  forall (s s0 : S),
    for_each xs (fun x => lift (f x)) s
    = (fst (for_each xs (fun x => lift (f x)) s0), s).
Proof.
  induction xs as [|x xs IH]; intros s s0; simpl.
  - reflexivity.
  - unfold bind, lift. destruct (f x) as [[| |r]|e]; simpl; auto.
Qed.

Lemma try_except_ret {S A : Type} (m : M S A) (h : exn -> M S A) (s : S) :
  (exists a s', m s = (Ret a, s')) -> try_except m h s = m s.
Proof. intros (a & s' & H). unfold try_except. rewrite H. reflexivity. Qed.

(** ** The API strategy *)

Section ApiFacts.

Variable w : world.
Variables (song_title artist_str : string) (artists : list string).

Lemma api_item_valid it video_id :
  api_item song_title artist_str artists it = Ret (Return video_id) ->
  _is_valid_video_id video_id = true.
Proof.
  unfold api_item. destruct (item_videoId it) as [v|]; [|discriminate].
  destruct (_is_valid_video_id v) eqn:Hv; simpl; [|discriminate].
  destruct (filtered_out _); [discriminate|].
  destruct (is_official _ && _); [intros [= <-]; exact Hv|].
  destruct (title_match _ _ && _); [intros [= <-]; exact Hv|discriminate].
Qed.

Lemma api_first_result_valid items video_id :
  api_first_result items = Ret (Return video_id) ->
  _is_valid_video_id video_id = true.
Proof.
  unfold api_first_result. destruct items as [|first rest]; [discriminate|].
  destruct (item_videoId first) as [v|]; [|discriminate].
  destruct (_is_valid_video_id v) eqn:Hv; [intros [= <-]; exact Hv|discriminate].
Qed.

(** Handling a response touches no state. *)
Lemma api_response_body_pure response log :
  api_response_body song_title artist_str artists response log
  = (fst (api_response_body song_title artist_str artists response []), log).
Proof.
  unfold api_response_body. destruct response as [items|]; [|reflexivity].
  destruct (0 <? List.length items)%nat; [|reflexivity].
  unfold bind.
  rewrite (for_each_lift (api_item song_title artist_str artists) items log []).
  destruct (for_each items _ []) as [[[v|]|e] s0]; reflexivity.
Qed.

Lemma api_response_body_valid response log log' video_id :
  api_response_body song_title artist_str artists response log
  = (Ret (Return video_id), log') ->
  _is_valid_video_id video_id = true.
Proof.
  unfold api_response_body. destruct response as [items|]; [|discriminate].
  destruct (0 <? List.length items)%nat; [|discriminate].
  unfold bind.
  destruct (for_each items _ log) as [[[v|]|e] log1] eqn:Hscan.
  - intros [= <- _].
    eapply (for_each_returns _ (fun v => _is_valid_video_id v = true)); [|exact Hscan].
    intros it s r s'. unfold lift. intros [= H _]. eapply api_item_valid, H.
  - unfold lift. intros [= H _]. eapply api_first_result_valid, H.
  - discriminate.
Qed.

(** One iteration of the API loop: one logged call and a verdict. *)
Lemma api_variant_eq search_query log :
  api_variant w song_title artist_str artists search_query log
  = (Ret (api_verdict w song_title artist_str artists log search_query),
     log ++ [ApiCall search_query]).
Proof.
  unfold api_variant, api_verdict, try_except, bind, execute.
  destruct (api_execute w log search_query) as [response|e].
  - rewrite api_response_body_pure.
    destruct (fst (api_response_body _ _ _ response [])) as [c|e]; [reflexivity|].
    destruct e; try reflexivity. simpl. destruct (status =? 403)%Z; reflexivity.
  - destruct e; try reflexivity. simpl. destruct (status =? 403)%Z; reflexivity.
Qed.

Lemma api_verdict_valid search_query log video_id :
  api_verdict w song_title artist_str artists log search_query = Return video_id ->
  _is_valid_video_id video_id = true.
Proof.
  unfold api_verdict.
  assert (Hh : forall e, api_handler e <> Return video_id).
  { intros e. destruct e; simpl; try discriminate.
    destruct (status =? 403)%Z; discriminate. }
  destruct (api_execute w log search_query) as [response|e];
    [|intros H; now apply Hh in H].
  destruct (fst (api_response_body _ _ _ response [])) as [c|e] eqn:Hb;
    [|intros H; now apply Hh in H].
  intros ->. eapply (api_response_body_valid response [] []).
  rewrite api_response_body_pure, Hb. reflexivity.
Qed.

End ApiFacts.

Lemma api_loop_total w song_title artist_str artists queries log :
  exists r log',
    for_each queries (api_variant w song_title artist_str artists) log = (Ret r, log').
Proof.
  apply for_each_total. intros q s. rewrite api_variant_eq. eauto.
Qed.

(** The outer handler of [_search_with_api] never fires. *)
Lemma search_with_api_eq w song_title artists log :
  _search_with_api w song_title artists log
  = for_each (api_queries song_title (artist_str_of artists))
             (api_variant w song_title (artist_str_of artists) artists) log.
Proof.
  unfold _search_with_api. apply try_except_ret. apply api_loop_total.
Qed.

Lemma search_with_api_ok w song_title artists log :
  exists r log',
    _search_with_api w song_title artists log = (Ret r, log') /\ id_or_none r.
Proof.
  rewrite search_with_api_eq.
  destruct (api_loop_total w song_title (artist_str_of artists) artists
              (api_queries song_title (artist_str_of artists)) log) as (r & log' & H).
  exists r, log'. split; [exact H|].
  destruct r as [v|]; [|exact I]. simpl.
  eapply (for_each_returns _ (fun v => _is_valid_video_id v = true)); [|exact H].
  intros q s r s'. rewrite api_variant_eq. intros [= Hv _].
  eapply api_verdict_valid, Hv.
Qed.

(** ** State invariants *)

Section Keeps.

Context {S : Type} (P : S -> Prop).

Lemma keeps_ret {A} (a : A) : keeps P (ret a).
Proof. intros s H. exact H. Qed.

Lemma keeps_bind {A B} (m : M S A) (k : A -> M S B) :
  keeps P m -> (forall a, keeps P (k a)) -> keeps P (bind m k).
Proof.
  intros Hm Hk s H. unfold bind. specialize (Hm s H).
  destruct (m s) as [[a|e] s1]; simpl in *; [apply Hk, Hm | exact Hm].
Qed.

Lemma keeps_bind_lift {A B} (o : outcome A) (k : A -> M S B) :
  (forall a, o = Ret a -> keeps P (k a)) -> keeps P (bind (lift o) k).
Proof.
  intros Hk s H. unfold bind, lift.
  destruct o as [a|e]; simpl; [now apply Hk | exact H].
Qed.

Lemma keeps_try {A} (m : M S A) (h : exn -> M S A) :
  keeps P m -> (forall e, keeps P (h e)) -> keeps P (try_except m h).
Proof.
  intros Hm Hh s H. unfold try_except. specialize (Hm s H).
  destruct (m s) as [[a|e] s1]; simpl in *; [exact Hm | apply Hh, Hm].
Qed.

Lemma keeps_for_each {X R} (xs : list X) (body : X -> M S (ctl R)) :
  (forall x, keeps P (body x)) -> keeps P (for_each xs body).
Proof.
  intros Hbody. induction xs as [|x xs IH]; simpl.
  - apply keeps_ret.
  - apply keeps_bind; [apply Hbody|].
    intros [| |r]; [exact IH | apply keeps_ret | apply keeps_ret].
Qed.

End Keeps.

(** ** The JSON pass *)

Lemma is_valid_video_id_dyn_true v :
  _is_valid_video_id_dyn v = Ret true ->
  exists s, v = JStr s /\ _is_valid_video_id s = true.
Proof.
  unfold _is_valid_video_id_dyn. destruct (truthy v); simpl; [|discriminate].
  destruct v as [|b|z|f|s|l|d]; try discriminate.
  - intros [= H]. eauto.
  - destruct (negb _); discriminate.
  - destruct (negb _); discriminate.
Qed.

Lemma extract_item_keeps item : keeps all_valid (extract_item item).
Proof.
  unfold extract_item.
  apply keeps_bind_lift. intros video_renderer _.
  destruct (truthy video_renderer); [|apply keeps_ret].
  apply keeps_bind_lift. intros video_id _.
  destruct (truthy video_id); [|apply keeps_ret].
  apply keeps_bind_lift. intros [|] Hok; [|apply keeps_ret].
  apply keeps_bind; [|intros; apply keeps_ret].
  destruct (is_valid_video_id_dyn_true _ Hok) as (s & -> & Hs).
  intros ids Hids. simpl. apply Forall_app. split; [exact Hids|].
  constructor; [exact Hs | constructor].
Qed.

Lemma extract_content_keeps content : keeps all_valid (extract_content content).
Proof.
  unfold extract_content.
  do 3 (apply keeps_bind_lift; intros ? _).
  apply keeps_bind; [|intros; apply keeps_ret].
  apply keeps_for_each. exact extract_item_keeps.
Qed.

(** The JSON pass yields format-valid IDs only. *)
Lemma extract_video_ids_valid w text :
  all_valid (_extract_video_ids_from_json w text).
Proof.
  unfold _extract_video_ids_from_json.
  apply (keeps_try all_valid); [|intros; apply keeps_ret|constructor].
  unfold extract_body. destruct (Re.search_initial_data text); [|apply keeps_ret].
  do 7 (apply keeps_bind_lift; intros ? _).
  apply keeps_bind; [|intros; apply keeps_ret].
  apply keeps_for_each. exact extract_content_keeps.
Qed.

(** ** The scraping strategy *)

Lemma first_valid_find ids : first_valid ids = find _is_valid_video_id ids.
Proof. destruct ids; reflexivity. Qed.

Lemma first_valid_valid ids v :
  first_valid ids = Some v -> _is_valid_video_id v = true.
Proof. rewrite first_valid_find. intros H. apply find_some in H. apply H. Qed.

Lemma scrape_text_valid w text v :
  scrape_text w text = Return v -> _is_valid_video_id v = true.
Proof.
  unfold scrape_text.
  destruct (first_valid (_extract_video_ids_from_json w text)) as [a|] eqn:Ha.
  - intros [= <-]. eapply first_valid_valid, Ha.
  - destruct (first_valid (Re.findall_watch text)) as [b|] eqn:Hb; [|discriminate].
    intros [= <-]. eapply first_valid_valid, Hb.
Qed.

(** The two passes in turn: the head of the JSON pass when it found
    anything, the first valid regex match otherwise. *)
Lemma scrape_text_passes w text :
  scrape_text w text =
  match _extract_video_ids_from_json w text with
  | vid_id :: _ => Return vid_id
  | [] =>
      match find _is_valid_video_id (Re.findall_watch text) with
      | Some vid_id => Return vid_id
      | None => Continue
      end
  end.
Proof.
  unfold scrape_text. rewrite !first_valid_find.
  pose proof (extract_video_ids_valid w text) as Hall.
  destruct (_extract_video_ids_from_json w text) as [|v ids]; [reflexivity|].
  inversion Hall as [|? ? Hv _]; subst. simpl. rewrite Hv. reflexivity.
Qed.

(** One iteration of the scraping loop: a blank query is passed over;
    any other costs one logged request and gives a verdict. *)
Lemma scrape_variant_eq w search_query log :
  scrape_variant w search_query log =
  if Py.is_empty (Py.strip search_query) then (Ret Continue, log)
  else (Ret (scrape_verdict w log search_query),
        log ++ [HttpGet (search_url_of (Py.strip search_query))]).
Proof.
  unfold scrape_variant, scrape_verdict, try_except.
  destruct (Py.is_empty (Py.strip search_query)); [reflexivity|].
  unfold bind, get_url.
  destruct (session_get w log _) as [response|e].
  - destruct (status_code response =? 200)%Z; reflexivity.
  - destruct e; reflexivity.
Qed.

Lemma scrape_verdict_valid w log search_query v :
  scrape_verdict w log search_query = Return v -> _is_valid_video_id v = true.
Proof.
  unfold scrape_verdict. destruct (session_get w log _) as [response|e]; [|discriminate].
  destruct (status_code response =? 200)%Z; [|discriminate].
  apply scrape_text_valid.
Qed.

Lemma scrape_loop_total w queries log :
  exists r log', for_each queries (scrape_variant w) log = (Ret r, log').
Proof.
  apply for_each_total. intros q s. rewrite scrape_variant_eq.
  destruct (Py.is_empty _); eauto.
Qed.

(** The outer handler of [_search_with_scraping] never fires. *)
Lemma search_with_scraping_eq w song_title artists log :
  _search_with_scraping w song_title artists log =
  if Py.is_empty song_title || Py.is_empty (Py.strip song_title) then (Ret None, log)
  else for_each (scraping_queries song_title (artist_str_of artists))
                (scrape_variant w) log.
Proof.
  unfold _search_with_scraping. destruct (_ || _); [reflexivity|].
  apply try_except_ret. apply scrape_loop_total.
Qed.

Lemma search_with_scraping_ok w song_title artists log :
  exists r log',
    _search_with_scraping w song_title artists log = (Ret r, log') /\ id_or_none r.
Proof.
  rewrite search_with_scraping_eq. destruct (_ || _).
  - exists None, log. split; [reflexivity | exact I].
  - destruct (scrape_loop_total w (scraping_queries song_title (artist_str_of artists)) log)
      as (r & log' & H).
    exists r, log'. split; [exact H|].
    destruct r as [v|]; [|exact I]. simpl.
    eapply (for_each_returns _ (fun v => _is_valid_video_id v = true)); [|exact H].
    intros q s r s'. rewrite scrape_variant_eq.
    destruct (Py.is_empty _); [discriminate|].
    intros [= Hv _]. eapply scrape_verdict_valid, Hv.
Qed.

Lemma search_video_id_ok w self song_title artists log :
  exists r log',
    search_video_id w self song_title artists log = (Ret r, log') /\ id_or_none r.
Proof.
  unfold search_video_id. destruct (youtube_api self).
  - apply search_with_api_ok.
  - apply search_with_scraping_ok.
Qed.

(** ** Whitespace *)

Lemma rstrip_empty s : Py.is_empty (Py.rstrip s) = whitespace_only s.
Proof.
  unfold whitespace_only. induction s as [|c s IH]; simpl; [reflexivity|].
  rewrite <- IH. destruct (Py.isspace c); simpl; [|reflexivity].
  destruct (Py.is_empty (Py.rstrip s)); reflexivity.
Qed.

Lemma lstrip_whitespace s : whitespace_only (Py.lstrip s) = whitespace_only s.
Proof.
  unfold whitespace_only. induction s as [|c s IH]; simpl; [reflexivity|].
  destruct (Py.isspace c) eqn:Hc; simpl; [exact IH | now rewrite Hc].
Qed.

(** [s.strip()] is empty exactly when [s] is all whitespace. *)
Lemma strip_empty s : Py.is_empty (Py.strip s) = whitespace_only s.
Proof. unfold Py.strip. now rewrite rstrip_empty, lstrip_whitespace. Qed.

Lemma is_empty_eq s : Py.is_empty s = true <-> s = ""%string.
Proof. destruct s; simpl; split; congruence. Qed.

Lemma whitespace_only_append a b :
  whitespace_only (a ++ b) = whitespace_only a && whitespace_only b.
Proof.
  unfold whitespace_only. induction a as [|c a IH]; simpl; [reflexivity|].
  now rewrite IH, andb_assoc.
Qed.

(** ** Substrings *)

Lemma prefix_append p s : prefix p (p ++ s) = true.
Proof.
  induction p as [|c p IH]; simpl; [now destruct s|].
  destruct (ascii_dec c c); [exact IH | contradiction].
Qed.

Lemma contains_prefix needle hay : prefix needle hay = true -> Py.contains needle hay = true.
Proof. intros H. destruct hay; cbn [Py.contains]; rewrite H; reflexivity. Qed.

Lemma contains_append_r needle a b :
  Py.contains needle b = true -> Py.contains needle (a ++ b) = true.
Proof.
  intros H. induction a as [|c a IH]; cbn [Py.contains String.append]; [exact H|].
  rewrite IH. apply orb_true_r.
Qed.

(** ** The request log *)

Lemma api_loop_log w song_title artist_str artists queries log :
  exists new,
    snd (for_each queries (api_variant w song_title artist_str artists) log) = log ++ new
    /\ Forall is_api_call new.
Proof.
  revert queries log.
  apply (for_each_state (api_variant w song_title artist_str artists)
           (fun log log' => exists new, log' = log ++ new /\ Forall is_api_call new)).
  - intros s. exists []. split; [now rewrite app_nil_r | constructor].
  - intros a b c (n1 & -> & H1) (n2 & -> & H2). exists (n1 ++ n2).
    split; [now rewrite app_assoc | now apply Forall_app].
  - intros q s. rewrite api_variant_eq. exists [ApiCall q].
    split; [reflexivity | repeat constructor].
Qed.

Lemma scrape_loop_log w queries log :
  exists new,
    snd (for_each queries (scrape_variant w) log) = log ++ new
    /\ Forall is_http_get new.
Proof.
  revert queries log.
  apply (for_each_state (scrape_variant w)
           (fun log log' => exists new, log' = log ++ new /\ Forall is_http_get new)).
  - intros s. exists []. split; [now rewrite app_nil_r | constructor].
  - intros a b c (n1 & -> & H1) (n2 & -> & H2). exists (n1 ++ n2).
    split; [now rewrite app_assoc | now apply Forall_app].
  - intros q s. rewrite scrape_variant_eq. destruct (Py.is_empty _).
    + exists []. split; [now rewrite app_nil_r | constructor].
    + eexists [_]. split; [reflexivity | repeat constructor].
Qed.

(** The API loop got to [ys] by one logged call per query passed. *)
Lemma api_loop_reaches_log w song_title artist_str artists xs log ys log' :
  loop_reaches (api_variant w song_title artist_str artists) xs log ys log' ->
  exists done, xs = done ++ ys /\ log' = log ++ map ApiCall done.
Proof.
  induction 1 as [xs s|x xs ys s s1 s' Hx _ (done & -> & ->)].
  - exists []. split; [reflexivity | now rewrite app_nil_r].
  - rewrite api_variant_eq in Hx. injection Hx as _ <-.
    exists (x :: done). split; [reflexivity|].
    simpl. now rewrite <- app_assoc.
Qed.

(** * The service's properties *)

Lemma is_valid_video_id_match video_id :
  _is_valid_video_id video_id = true -> Re.match_video_id video_id = true.
Proof.
  unfold _is_valid_video_id.
  destruct (_ || _); [discriminate|].
  destruct (Re.match_video_id video_id); [reflexivity | discriminate].
Qed.

(** C1.  Whichever strategy ran, an ID that [search_video_id] returns has
    length 11, matches [[a-zA-Z0-9_-]{11}] and is none of "AAAAAAAAAAA",
    "undefined", "null", "true", "false". *)
Theorem returned_id_format w self song_title artists log video_id :
  fst (search_video_id w self song_title artists log) = Ret (Some video_id) ->
  String.length video_id = 11 /\
  Re.match_video_id video_id = true /\
  Forall (fun c => Re.id_char c = true) (list_ascii_of_string video_id) /\
  ~ In video_id ["AAAAAAAAAAA"; "undefined"; "null"; "true"; "false"].
Proof.
  intros H.
  destruct (search_video_id_ok w self song_title artists log) as (r & log' & E & Hr).
  rewrite E in H. injection H as ->. simpl in Hr.
  pose proof (is_valid_video_id_match _ Hr) as Hm.
  apply is_valid_video_id_iff in Hr. destruct Hr as (Hlen & Hall & Hnot).
  repeat split; assumption.
Qed.

Lemma returned_id_format_witness :
  fst (search_video_id Scenarios.watch_page Doubles.without_api "X" [] [])
  = Ret (Some "dQw4w9WgXcQ") /\
  String.length "dQw4w9WgXcQ" = 11 /\
  Re.match_video_id "dQw4w9WgXcQ" = true /\
  Forall (fun c => Re.id_char c = true) (list_ascii_of_string "dQw4w9WgXcQ") /\
  ~ In "dQw4w9WgXcQ"%string ["AAAAAAAAAAA"; "undefined"; "null"; "true"; "false"].
Proof.
  split; [vm_compute; reflexivity|].
  apply (returned_id_format Scenarios.watch_page Doubles.without_api "X" [] []).
  vm_compute. reflexivity.
Defined.

(** C5.  Whatever the world answers (an authorization or quota error, any
    other request failure, a payload of unexpected shape, JSON that does
    not parse or navigate, invalid candidates), [search_video_id] returns,
    and what it returns is a valid video ID or none: it never raises. *)
Theorem search_video_id_never_raises w self song_title artists log :
  exists r log',
    search_video_id w self song_title artists log = (Ret r, log') /\
    (r = None \/
     exists video_id, r = Some video_id /\ _is_valid_video_id video_id = true
                      /\ well_formed_id video_id).
Proof.
  destruct (search_video_id_ok w self song_title artists log) as (r & log' & E & Hr).
  exists r, log'. split; [exact E|].
  destruct r as [v|]; [right | left; reflexivity].
  exists v. repeat split; [exact Hr | apply is_valid_video_id_iff, Hr ..].
Qed.

(** C6.  When the API loop has got to some query variant and the request
    for it fails with HTTP 403, [_search_with_api] returns none and the
    log ends with that request: one call for each variant up to it, none
    for a later one. *)
Theorem quota_error_aborts w song_title artists log0 search_query later log :
  loop_reaches (api_variant w song_title (artist_str_of artists) artists)
               (api_queries song_title (artist_str_of artists)) log0
               (search_query :: later) log ->
  api_execute w log search_query = Raise (HttpError 403) ->
  _search_with_api w song_title artists log0 = (Ret None, log ++ [ApiCall search_query]) /\
  exists done,
    api_queries song_title (artist_str_of artists) = done ++ search_query :: later /\
    log ++ [ApiCall search_query] = log0 ++ map ApiCall (done ++ [search_query]).
Proof.
  intros Hreach H403. split.
  - rewrite search_with_api_eq, (for_each_reaches _ _ _ _ _ Hreach).
    apply for_each_break. rewrite api_variant_eq. unfold api_verdict.
    rewrite H403. reflexivity.
  - destruct (api_loop_reaches_log _ _ _ _ _ _ _ _ Hreach) as (done & E & ->).
    exists done. split; [exact E|].
    now rewrite map_app, app_assoc.
Qed.

Lemma quota_error_aborts_witness :
  _search_with_api Scenarios.quota_world "Song" ["Art"] []
  = (Ret None, [ApiCall "Song Art official audio"; ApiCall "Song Art official"]) /\
  exists done,
    api_queries "Song" (artist_str_of ["Art"])
    = done ++ "Song Art official"%string :: ["Song Art"; "Song Art music"] /\
    [ApiCall "Song Art official audio"] ++ [ApiCall "Song Art official"]
    = [] ++ map ApiCall (done ++ ["Song Art official"]).
Proof.
  apply (quota_error_aborts Scenarios.quota_world "Song" ["Art"] []
           "Song Art official" ["Song Art"; "Song Art music"]
           [ApiCall "Song Art official audio"]).
  - eapply reaches_next; [vm_compute; reflexivity | apply reaches_here].
  - vm_compute. reflexivity.
Defined.

Lemma api_call_count_gets log new :
  Forall is_http_get new -> api_call_count (log ++ new) = api_call_count log.
Proof.
  unfold api_call_count. intros H. rewrite filter_app, length_app.
  induction H as [|e new He _ IH]; simpl; [lia|].
  destruct e; [contradiction | exact IH].
Qed.

(** C7.  [search_video_id] runs one strategy: the API strategy, issuing
    API calls only, when the service holds an API client, and the
    scraping strategy, issuing HTTP GETs only, when it does not.  The
    service holds a client exactly when a key is set, the client library
    is there and [build] succeeded; so with no key no API call is made. *)
Theorem exactly_one_strategy w self song_title artists log :
  (forall env_key available build client,
      youtube_api (init env_key available build) = Some client <->
      env_key <> ""%string /\ available = true /\ build = Ret client) /\
  (forall available build,
      api_call_count
        (snd (search_video_id w (init "" available build) song_title artists log))
      = api_call_count log) /\
  match youtube_api self with
  | Some _ =>
      search_video_id w self song_title artists log
      = _search_with_api w song_title artists log /\
      exists new,
        snd (search_video_id w self song_title artists log) = log ++ new /\
        Forall is_api_call new
  | None =>
      search_video_id w self song_title artists log
      = _search_with_scraping w song_title artists log /\
      exists new,
        snd (search_video_id w self song_title artists log) = log ++ new /\
        Forall is_http_get new
  end.
Proof.
  assert (Hscrape : exists new,
             snd (_search_with_scraping w song_title artists log) = log ++ new /\
             Forall is_http_get new).
  { rewrite search_with_scraping_eq. destruct (_ || _).
    - exists []. split; [now rewrite app_nil_r | constructor].
    - apply scrape_loop_log. }
  split; [|split].
  - intros env_key available build client. unfold init. simpl. split.
    + destruct env_key; simpl; [discriminate|].
      destruct available; simpl; [|discriminate].
      destruct build as [c|e]; [|discriminate].
      intros [= ->]. repeat split. discriminate.
    + intros (Hk & -> & ->). destruct env_key; [contradiction | reflexivity].
  - intros available build. destruct Hscrape as (new & E & Hnew).
    change (search_video_id w (init "" available build) song_title artists log)
      with (_search_with_scraping w song_title artists log).
    rewrite E. apply api_call_count_gets, Hnew.
  - unfold search_video_id. destruct (youtube_api self).
    + split; [reflexivity|]. rewrite search_with_api_eq. apply api_loop_log.
    + split; [reflexivity | exact Hscrape].
Qed.

(** C9.  [get_embed_url] and [get_watch_url] depend on the video ID alone,
    not on the service they are called on; the embed URL is on
    youtube-nocookie.com and its query string has the parameters
    autoplay=0, rel=0 and controls=0. *)
Theorem url_builders_pure self self' video_id :
  get_embed_url self video_id = get_embed_url self' video_id /\
  get_watch_url self video_id = get_watch_url self' video_id /\
  get_watch_url self video_id = ("https://www.youtube.com/watch?v=" ++ video_id)%string /\
  get_embed_url self video_id
  = ("https://www.youtube-nocookie.com/embed/" ++ video_id ++ "?"
     ++ Py.join "&" embed_params)%string /\
  prefix "https://www.youtube-nocookie.com/" (get_embed_url self video_id) = true /\
  (In "autoplay=0" embed_params /\ In "rel=0" embed_params /\ In "controls=0" embed_params)%string /\
  Py.contains "autoplay=0" (get_embed_url self video_id) = true /\
  Py.contains "&rel=0" (get_embed_url self video_id) = true /\
  Py.contains "&controls=0" (get_embed_url self video_id) = true.
Proof.
  assert (Hq : forall p, Py.contains p (Py.join "&" embed_params) = true ->
                         Py.contains p (get_embed_url self video_id) = true).
  { intros p Hp. unfold get_embed_url. now do 3 apply contains_append_r. }
  repeat split; try reflexivity.
  - simpl. tauto.
  - simpl. tauto.
  - simpl. tauto.
  - apply Hq. vm_compute. reflexivity.
  - apply Hq. vm_compute. reflexivity.
  - apply Hq. vm_compute. reflexivity.
Qed.

(** C10.  With no API client, [search_video_id] on an empty or
    whitespace-only title returns none and issues no request; and in the
    scraping loop a query variant that strips to the empty string is
    passed over with no request. *)
Theorem blank_title_no_request w self song_title artists search_query later log :
  youtube_api self = None ->
  whitespace_only song_title = true ->
  Py.strip search_query = ""%string ->
  search_video_id w self song_title artists log = (Ret None, log) /\
  scrape_variant w search_query log = (Ret Continue, log) /\
  for_each (search_query :: later) (scrape_variant w) log
  = for_each later (scrape_variant w) log.
Proof.
  intros Hnone Hblank Hstrip.
  assert (Hq : scrape_variant w search_query log = (Ret Continue, log)).
  { rewrite scrape_variant_eq, Hstrip. reflexivity. }
  repeat split.
  - unfold search_video_id. rewrite Hnone, search_with_scraping_eq.
    rewrite strip_empty, Hblank, orb_true_r. reflexivity.
  - exact Hq.
  - apply for_each_continue, Hq.
Qed.

Lemma blank_title_no_request_witness :
  search_video_id Scenarios.watch_page Doubles.without_api "  " ["Art"] [] = (Ret None, []) /\
  scrape_variant Scenarios.watch_page " " [] = (Ret Continue, []) /\
  for_each [" "; "Song"]%string (scrape_variant Scenarios.watch_page) []
  = for_each ["Song"%string] (scrape_variant Scenarios.watch_page) [].
Proof.
  apply (blank_title_no_request Scenarios.watch_page Doubles.without_api
           "  " ["Art"] " " ["Song"%string] []); reflexivity.
Defined.

(** ** Where the scraping loop has got to *)

Lemma scraping_queries_nonblank song_title artist_str :
  whitespace_only song_title = false ->
  Forall (fun q => whitespace_only q = false) (scraping_queries song_title artist_str).
Proof.
  intros H. unfold scraping_queries.
  repeat constructor; rewrite whitespace_only_append, H; reflexivity.
Qed.

Lemma scrape_loop_reaches_log w xs log ys log' :
  loop_reaches (scrape_variant w) xs log ys log' ->
  Forall (fun q => whitespace_only q = false) xs ->
  Forall (fun q => whitespace_only q = false) ys /\
  exists done,
    xs = done ++ ys /\
    log' = log ++ map (fun q => HttpGet (search_url_of (Py.strip q))) done.
Proof.
  induction 1 as [xs s|x xs ys s s1 s' Hx _ IH]; intros Hall.
  - split; [exact Hall|]. exists []. split; [reflexivity | now rewrite app_nil_r].
  - inversion Hall as [|? ? Hq Hrest]; subst.
    destruct (IH Hrest) as (Hys & done & -> & ->). split; [exact Hys|].
    rewrite scrape_variant_eq, strip_empty, Hq in Hx. injection Hx as _ <-.
    exists (x :: done). split; [reflexivity|].
    simpl. now rewrite <- app_assoc.
Qed.

(** C8.  The scraping queries are the "official audio", "official",
    "music" and bare variants, in this order, and each variant reached
    costs one GET, in that order.  On a 200 response the JSON pass goes
    first: when it found IDs its first one is returned; only when it
    found none is the first format-valid match of the [/watch?v=] regex
    returned; when neither gives an ID the loop goes on with the next
    variant. *)
Theorem scraping_order_and_passes w song_title artists log0 search_query later log body :
  whitespace_only song_title = false ->
  loop_reaches (scrape_variant w)
               (scraping_queries song_title (artist_str_of artists)) log0
               (search_query :: later) log ->
  session_get w log (search_url_of (Py.strip search_query)) = Ret (mkHttp 200 body) ->
  scraping_queries song_title (artist_str_of artists)
  = [ song_title ++ " " ++ artist_str_of artists ++ " official audio";
      song_title ++ " " ++ artist_str_of artists ++ " official";
      song_title ++ " " ++ artist_str_of artists ++ " music";
      song_title ++ " " ++ artist_str_of artists ]%string /\
  (exists done,
      scraping_queries song_title (artist_str_of artists) = done ++ search_query :: later /\
      log = log0 ++ map (fun q => HttpGet (search_url_of (Py.strip q))) done) /\
  scrape_text w body
  = match _extract_video_ids_from_json w body with
    | vid_id :: _ => Return vid_id
    | [] =>
        match find _is_valid_video_id (Re.findall_watch body) with
        | Some vid_id => Return vid_id
        | None => Continue
        end
    end /\
  _search_with_scraping w song_title artists log0
  = match scrape_text w body with
    | Return vid_id =>
        (Ret (Some vid_id), log ++ [HttpGet (search_url_of (Py.strip search_query))])
    | _ =>
        for_each later (scrape_variant w)
                 (log ++ [HttpGet (search_url_of (Py.strip search_query))])
    end.
Proof.
  intros Hblank Hreach Hget.
  destruct (scrape_loop_reaches_log _ _ _ _ _ Hreach
              (scraping_queries_nonblank _ _ Hblank)) as (Hys & done & E & Hlog).
  split; [reflexivity|]. split; [exists done; split; assumption|].
  split; [apply scrape_text_passes|].
  assert (Hq : whitespace_only search_query = false) by (inversion Hys; assumption).
  assert (Hstep : scrape_variant w search_query log
                  = (Ret (scrape_text w body),
                     log ++ [HttpGet (search_url_of (Py.strip search_query))])).
  { rewrite scrape_variant_eq, strip_empty, Hq. unfold scrape_verdict.
    rewrite Hget. reflexivity. }
  rewrite search_with_scraping_eq, strip_empty, Hblank, orb_false_r.
  replace (Py.is_empty song_title) with false
    by (destruct song_title; [discriminate Hblank | reflexivity]).
  rewrite (for_each_reaches _ _ _ _ _ Hreach).
  pose proof (scrape_text_passes w body) as Hpass.
  destruct (scrape_text w body) as [| |v] eqn:Hres.
  - apply for_each_continue, Hstep.
  - destruct (_extract_video_ids_from_json w body); [|discriminate Hpass].
    destruct (find _ _); discriminate Hpass.
  - apply for_each_return, Hstep.
Qed.

Lemma scraping_order_and_passes_witness :
  scraping_queries "X" (artist_str_of [])
  = [ "X" ++ " " ++ artist_str_of [] ++ " official audio";
      "X" ++ " " ++ artist_str_of [] ++ " official";
      "X" ++ " " ++ artist_str_of [] ++ " music";
      "X" ++ " " ++ artist_str_of [] ]%string /\
  (exists done,
      scraping_queries "X" (artist_str_of []) = done ++ "X  official"%string :: ["X  music"; "X "]%string /\
      [HttpGet "https://www.youtube.com/results?search_query=X%20%20official%20audio"]
      = [] ++ map (fun q => HttpGet (search_url_of (Py.strip q))) done) /\
  scrape_text Scenarios.empty_then_watch "<a href=/watch?v=dQw4w9WgXcQ>"
  = match _extract_video_ids_from_json Scenarios.empty_then_watch "<a href=/watch?v=dQw4w9WgXcQ>" with
    | vid_id :: _ => Return vid_id
    | [] =>
        match find _is_valid_video_id (Re.findall_watch "<a href=/watch?v=dQw4w9WgXcQ>") with
        | Some vid_id => Return vid_id
        | None => Continue
        end
    end /\
  _search_with_scraping Scenarios.empty_then_watch "X" [] []
  = match scrape_text Scenarios.empty_then_watch "<a href=/watch?v=dQw4w9WgXcQ>" with
    | Return vid_id =>
        (Ret (Some vid_id),
         [HttpGet "https://www.youtube.com/results?search_query=X%20%20official%20audio"]
         ++ [HttpGet (search_url_of (Py.strip "X  official"))])
    | _ =>
        for_each ["X  music"; "X "]%string (scrape_variant Scenarios.empty_then_watch)
                 ([HttpGet "https://www.youtube.com/results?search_query=X%20%20official%20audio"]
                  ++ [HttpGet (search_url_of (Py.strip "X  official"))])
    end.
Proof.
  apply (scraping_order_and_passes Scenarios.empty_then_watch "X" [] []
           "X  official" ["X  music"; "X "]%string
           [HttpGet "https://www.youtube.com/results?search_query=X%20%20official%20audio"]
           "<a href=/watch?v=dQw4w9WgXcQ>").
  - reflexivity.
  - eapply reaches_next; [vm_compute; reflexivity | apply reaches_here].
  - vm_compute. reflexivity.
Defined.

(** ** Scanning a result list *)

Section ScanFacts.

Variables (song_title artist_str : string) (artists : list string).

(** No candidate fires rule (a) or (b): the scan ends empty-handed. *)
Lemma scan_none items (log : list event) :
  Forall (fun it => api_item song_title artist_str artists it = Ret Continue) items ->
  for_each items (fun it => lift (api_item song_title artist_str artists it)) log
  = (Ret None, log).
Proof.
  induction 1 as [|it items Hit _ IH]; [reflexivity|].
  rewrite (for_each_continue _ it items log log); [exact IH|].
  unfold lift. now rewrite Hit.
Qed.


End ScanFacts.










(** C4 on the code: a result titled "Song Title #shorts" is skipped by the
    scan for its keyword, and returned all the same by the first-result
    fallback.  The ID "undefined" does fail the format check. *)
Theorem shorts_first_result_returned :
  api_execute Cases.shorts_world [] "Song Title Artist official audio"
  = Ret (Some [Cases.short]) /\
  filtered_out (Py.lower (get_or_empty (snippet_title Cases.short))) = true /\
  api_item "Song Title" "Artist" ["Artist"] Cases.short = Ret Continue /\
  _search_with_api Cases.shorts_world "Song Title" ["Artist"] []
  = (Ret (Some "abcdefghijk"), [ApiCall "Song Title Artist official audio"]) /\
  search_video_id Cases.shorts_world Doubles.with_api "Song Title" ["Artist"] []
  = (Ret (Some "abcdefghijk"), [ApiCall "Song Title Artist official audio"]) /\
  _is_valid_video_id "undefined" = false.
Proof. repeat split; vm_compute; reflexivity. Qed.

(** * Worked examples *)

Example lower_ex :
  Py.lower "The Weeknd - Blinding Lights (Official Video)"
  = "the weeknd - blinding lights (official video)"%string.
Proof. reflexivity. Qed.

Example split_ex : Py.split "  blinding   lights " = ["blinding"; "lights"]%string.
Proof. reflexivity. Qed.

Example strip_ex : Py.strip "  a b  " = "a b"%string.
Proof. reflexivity. Qed.

Example quote_ex : Py.quote "a b&c/d" = "a%20b%26c/d"%string.
Proof. reflexivity. Qed.

Example findall_ex :
  Re.findall_watch "<a href=/watch?v=dQw4w9WgXcQ&x>/watch?v=short /watch?v=AAAAAAAAAAAB"
  = ["dQw4w9WgXcQ"; "AAAAAAAAAAA"]%string.
Proof. reflexivity. Qed.

Example search_initial_data_ex :
  Re.search_initial_data "x; var ytInitialData = {[1], {}};</script>"
  = Some "{[1], {}}"%string.
Proof. reflexivity. Qed.

(** The placeholder is dropped, the entry that is no video is passed
    over, and the number where an ID should be ends the pass with what
    was collected so far. *)
Example extract_ex :
  _extract_video_ids_from_json
    (Scenarios.json_world Scenarios.initial_data "") "var ytInitialData = {...};"
  = ["dQw4w9WgXcQ"%string].
Proof. vm_compute. reflexivity. Qed.

(** The JSON pass wins over the regex pass. *)
Example json_pass_first_ex :
  search_video_id
    (Scenarios.json_world Scenarios.initial_data "")
    Doubles.without_api "X" [] []
  = (Ret None,
     [ HttpGet "https://www.youtube.com/results?search_query=X%20%20official%20audio";
       HttpGet "https://www.youtube.com/results?search_query=X%20%20official";
       HttpGet "https://www.youtube.com/results?search_query=X%20%20music";
       HttpGet "https://www.youtube.com/results?search_query=X" ]) /\
  search_video_id
    (Scenarios.json_world Scenarios.initial_data
       "/watch?v=abcdefghijk var ytInitialData = {...};")
    Doubles.without_api "X" [] []
  = (Ret (Some "dQw4w9WgXcQ"),
     [HttpGet "https://www.youtube.com/results?search_query=X%20%20official%20audio"]).
Proof. split; vm_compute; reflexivity. Qed.

(** The scenarios of the specification. *)
Example blinding_lights_ex :
  _search_with_api
    (Doubles.api_world (fun _ =>
       Ret (Some [Doubles.candidate "4NRXx6U8ABQ"
                    "The Weeknd - Blinding Lights (Official Video)" "..."])))
    "Blinding Lights" ["The Weeknd"] []
  = (Ret (Some "4NRXx6U8ABQ"), [ApiCall "Blinding Lights The Weeknd official audio"]).
Proof. vm_compute. reflexivity. Qed.

Example nothing_found_ex :
  fst (search_video_id Doubles.silent Doubles.with_api "X" [] []) = Ret None /\
  fst (search_video_id Doubles.silent Doubles.without_api "X" [] []) = Ret None.
Proof. split; vm_compute; reflexivity. Qed.

Example watch_link_ex :
  fst (search_video_id Scenarios.watch_page Doubles.without_api "X" [] [])
  = Ret (Some "dQw4w9WgXcQ").
Proof. vm_compute. reflexivity. Qed.

Example embed_url_ex :
  get_embed_url Doubles.without_api "dQw4w9WgXcQ"
  = ("https://www.youtube-nocookie.com/embed/dQw4w9WgXcQ?autoplay=0&enablejsapi=1"
     ++ "&origin=http%3A//localhost%3A8000&rel=0&modestbranding=1&iv_load_policy=3"
     ++ "&fs=0&playsinline=1&controls=0&disablekb=1&cc_load_policy=0&loop=0&mute=0&start=0")%string.
Proof. vm_compute. reflexivity. Qed.

(** * Further properties *)

(** ** The format check and the regex pass *)

Lemma denylist_at_length_11 video_id :
  String.length video_id = 11 ->
  (In video_id invalid_patterns <-> video_id = "AAAAAAAAAAA"%string).
Proof.
  intros Hlen. unfold invalid_patterns. simpl. split.
  - intros [H|[H|[H|[H|[H|[]]]]]]; subst video_id; try discriminate Hlen. reflexivity.
  - intros ->. left. reflexivity.
Qed.

(** X1.  [_is_valid_video_id] accepts exactly the strings of eleven
    characters of [[a-zA-Z0-9_-]] other than "AAAAAAAAAAA": the other
    four placeholder entries never decide anything, none being eleven
    characters long. *)
Theorem format_check_only_placeholder video_id :
  _is_valid_video_id video_id = true <->
  String.length video_id = 11 /\
  Forall (fun c => Re.id_char c = true) (list_ascii_of_string video_id) /\
  video_id <> "AAAAAAAAAAA"%string.
Proof.
  rewrite is_valid_video_id_iff. unfold well_formed_id. fold invalid_patterns. split.
  - intros (Hlen & Hall & Hnot). repeat split; try assumption.
    intros E. apply Hnot. now apply denylist_at_length_11.
  - intros (Hlen & Hall & Hne). repeat split; try assumption.
    intros Hin. apply Hne. now apply denylist_at_length_11.
Qed.

Lemma is_valid_of_id_chars m :
  String.length m = 11 ->
  Forall (fun c => Re.id_char c = true) (list_ascii_of_string m) ->
  _is_valid_video_id m = negb (String.eqb m "AAAAAAAAAAA").
Proof.
  intros Hlen Hall. destruct (String.eqb_spec m "AAAAAAAAAAA") as [->|Hne].
  - reflexivity.
  - apply is_valid_video_id_iff. unfold well_formed_id. fold invalid_patterns.
    repeat split; try assumption.
    intros Hin. apply Hne. now apply denylist_at_length_11.
Qed.

Lemma literal_sound lit : forall s rest,
  Re.literal lit s = Some rest -> s = (lit ++ rest)%string.
Proof.
  induction lit as [|a lit IH]; intros s rest H; cbn [Re.literal] in H.
  - now injection H as ->.
  - destruct s as [|c s]; [discriminate H|].
    destruct (Ascii.eqb a c) eqn:Hac; [|discriminate H].
    apply Ascii.eqb_eq in Hac. subst c. cbn [String.append]. f_equal. now apply IH.
Qed.

Lemma literal_complete lit rest : Re.literal lit (lit ++ rest) = Some rest.
Proof.
  induction lit as [|a lit IH]; cbn [Re.literal String.append]; [reflexivity|].
  now rewrite Ascii.eqb_refl.
Qed.

Lemma watch_at_sound s m :
  Re.watch_at s = Some m ->
  String.length m = 11 /\
  Forall (fun c => Re.id_char c = true) (list_ascii_of_string m) /\
  exists rest, s = ("/watch?v=" ++ m ++ rest)%string.
Proof.
  unfold Re.watch_at.
  destruct (Re.literal "/watch?v=" s) as [after|] eqn:Hlit; [|discriminate].
  destruct (Re.id_chars 11 after) as [[m' rest]|] eqn:Hm; [|discriminate].
  intros [= <-]. apply id_chars_sound in Hm. destruct Hm as (-> & Hlen & Hall).
  repeat split; try assumption. exists rest.
  now apply literal_sound in Hlit.
Qed.

Lemma findall_watch_from_chars s :
  forall skip,
    Forall (fun m => String.length m = 11 /\
                     Forall (fun c => Re.id_char c = true) (list_ascii_of_string m))
           (Re.findall_watch_from skip s).
Proof.
  induction s as [|c s IH]; intros skip; simpl; [constructor|].
  destruct skip as [|k]; [|apply IH].
  destruct (Re.watch_at (String c s)) as [m|] eqn:Hm; [|apply IH].
  constructor; [|apply IH].
  apply watch_at_sound in Hm. destruct Hm as (Hlen & Hall & _). now split.
Qed.

(** X2.  Every match of the [/watch?v=] regex is eleven characters of
    [[a-zA-Z0-9_-]], so the only match the format check ever turns down
    in the regex pass is the placeholder "AAAAAAAAAAA". *)
Theorem regex_pass_rejects_only_placeholder body :
  Forall (fun m => String.length m = 11 /\
                   Forall (fun c => Re.id_char c = true) (list_ascii_of_string m))
         (Re.findall_watch body) /\
  find _is_valid_video_id (Re.findall_watch body)
  = find (fun m => negb (String.eqb m "AAAAAAAAAAA")) (Re.findall_watch body).
Proof.
  pose proof (findall_watch_from_chars body 0) as Hall.
  fold (Re.findall_watch body) in Hall. split; [exact Hall|].
  induction Hall as [|m l (Hlen & Hm) _ IH]; simpl; [reflexivity|].
  rewrite (is_valid_of_id_chars m Hlen Hm), IH. reflexivity.
Qed.

(** ** The JSON pass: what it gives when there is nothing to read *)

(** X3.  [_extract_video_ids_from_json] gives the empty list when the
    page has no [ytInitialData] assignment, when [json.loads] raises on
    it, and when what was loaded is not a dict; and whatever the page
    and the loaded value, every ID it gives passes the format check. *)
Theorem extract_nothing_to_read w body :
  all_valid (_extract_video_ids_from_json w body) /\
  match Re.search_initial_data body with
  | None => _extract_video_ids_from_json w body = []
  | Some group1 =>
      match json_loads w group1 with
      | Raise _ => _extract_video_ids_from_json w body = []
      | Ret (JDict _) => True
      | Ret _ => _extract_video_ids_from_json w body = []
      end
  end.
Proof.
  split; [apply extract_video_ids_valid|].
  unfold _extract_video_ids_from_json, extract_body, try_except.
  destruct (Re.search_initial_data body) as [g|]; [|reflexivity].
  unfold bind, lift.
  destruct (json_loads w g) as [data|e]; [|reflexivity].
  destruct data; first [reflexivity | exact I].
Qed.

(** ** The JSON pass on a page of the expected shape *)

Lemma present_cons o os : present (o :: os) = present [o] ++ present os.
Proof. unfold present. simpl. now rewrite app_nil_r. Qed.

Lemma extract_item_view item o acc :
  entry_view item o ->
  extract_item item acc = (Ret Continue, acc ++ filter _is_valid_video_id (present [o])).
Proof.
  intros [d dv s Hr Hid | d Hr | d dv Hr Hid];
    unfold extract_item, bind, lift; cbn [get]; rewrite Hr.
  - assert (Ht : truthy (JDict dv) = true)
      by (destruct dv; [discriminate Hid | reflexivity]).
    rewrite Ht. cbn [get]. rewrite Hid.
    destruct s as [|c s].
    + simpl. now rewrite app_nil_r.
    + cbn [truthy Py.is_empty negb]. unfold _is_valid_video_id_dyn.
      cbn [truthy Py.is_empty negb]. cbv iota.
      cbn [present flat_map filter app].
      destruct (_is_valid_video_id (String c s)); cbn [append ret];
        [reflexivity | now rewrite app_nil_r].
  - simpl. now rewrite app_nil_r.
  - destruct dv as [|p dv].
    + simpl. now rewrite app_nil_r.
    + cbn [truthy get]. rewrite Hid. simpl. now rewrite app_nil_r.
Qed.

Lemma extract_item_broken item acc :
  entry_broken item -> exists e, extract_item item acc = (Raise e, acc).
Proof.
  intros [v Hv | d v Hr Ht Hv | d dv v e Hr Hid Ht He];
    unfold extract_item, bind, lift.
  - destruct v; try (eexists; reflexivity). exfalso. eapply Hv. reflexivity.
  - cbn [get]. rewrite Hr, Ht.
    destruct v; try (eexists; reflexivity). exfalso. eapply Hv. reflexivity.
  - cbn [get]. rewrite Hr.
    assert (Hdv : truthy (JDict dv) = true)
      by (destruct dv; [discriminate Hid | reflexivity]).
    rewrite Hdv. cbn [get]. rewrite Hid, Ht, He. eexists. reflexivity.
Qed.

Lemma extract_items_view items os :
  Forall2 entry_view items os ->
  forall acc,
    for_each items extract_item acc
    = (Ret None, acc ++ filter _is_valid_video_id (present os)).
Proof.
  induction 1 as [|item o items os Hv _ IH]; intros acc.
  - simpl. unfold ret. now rewrite app_nil_r.
  - rewrite (for_each_continue _ _ _ _ _ (extract_item_view _ _ acc Hv)), IH.
    now rewrite (present_cons o os), filter_app, app_assoc.
Qed.

(** Items read up to a broken one are kept; the loop ends there. *)
Lemma extract_items_broken good os bad rest :
  Forall2 entry_view good os ->
  entry_broken bad ->
  forall acc, exists e,
    for_each (good ++ bad :: rest) extract_item acc
    = (Raise e, acc ++ filter _is_valid_video_id (present os)).
Proof.
  intros Hgood Hbad. induction Hgood as [|item o good os Hv _ IH]; intros acc.
  - destruct (extract_item_broken bad acc Hbad) as (e & He). exists e.
    cbn [app]. rewrite (for_each_raise _ _ _ _ _ _ He). simpl. now rewrite app_nil_r.
  - destruct (IH (acc ++ filter _is_valid_video_id (present [o]))) as (e & He).
    exists e. cbn [app].
    rewrite (for_each_continue _ _ _ _ _ (extract_item_view _ _ acc Hv)), He.
    now rewrite (present_cons o os), filter_app, app_assoc.
Qed.

Lemma extract_content_view content items os acc :
  section_view content items ->
  Forall2 entry_view items os ->
  extract_content content acc
  = (Ret Continue, acc ++ filter _is_valid_video_id (present os)).
Proof.
  intros Hs Hitems. unfold extract_content.
  destruct Hs as [d ds items Hsec Hc | d Hsec]; unfold bind, lift; cbn [get]; rewrite Hsec.
  - cbn [get]. rewrite Hc. cbn [iter]. now rewrite (extract_items_view _ _ Hitems).
  - inversion Hitems; subst. simpl. unfold ret. now rewrite app_nil_r.
Qed.

Lemma extract_contents_view sections itemss oss :
  Forall2 section_view sections itemss ->
  Forall2 (Forall2 entry_view) itemss oss ->
  forall acc,
    for_each sections extract_content acc
    = (Ret None, acc ++ filter _is_valid_video_id (present (concat oss))).
Proof.
  intros Hs. revert oss.
  induction Hs as [|content items sections itemss Hc _ IH]; intros oss Hi acc.
  - inversion Hi; subst. simpl. unfold ret. now rewrite app_nil_r.
  - inversion Hi as [|? os ? oss' Hitems Hrest]; subst.
    rewrite (for_each_continue _ _ _ _ _ (extract_content_view _ _ _ acc Hc Hitems)).
    rewrite (IH _ Hrest). simpl concat. unfold present.
    rewrite flat_map_app, filter_app, app_assoc. reflexivity.
Qed.

Lemma extract_body_page w body group1 data sections :
  Re.search_initial_data body = Some group1 ->
  json_loads w group1 = Ret data ->
  page_view data sections ->
  forall acc,
    extract_body w body acc
    = match for_each sections extract_content acc with
      | (Ret _, ids) => (Ret tt, ids)
      | (Raise e, ids) => (Raise e, ids)
      end.
Proof.
  intros Hs Hl Hp acc. unfold extract_body. rewrite Hs.
  destruct Hp as [d0 d1 d2 d3 d4 sections H0 H1 H2 H3 H4].
  unfold bind, lift. rewrite Hl. cbn [get]. rewrite H0. cbn [get]. rewrite H1.
  cbn [get]. rewrite H2. cbn [get]. rewrite H3. cbn [get]. rewrite H4. cbn [iter].
  destruct (for_each sections extract_content acc) as [[r|e] ids]; reflexivity.
Qed.

(** X4.  On a page whose [ytInitialData] loads to the expected nesting,
    the JSON pass gives the video IDs of all items of all sections in
    document order, less those that fail the format check; items without
    a "videoRenderer" (or with one that has no "videoId") and sections
    without an "itemSectionRenderer" contribute nothing. *)
Theorem extract_document_order w body group1 data sections itemss oss :
  Re.search_initial_data body = Some group1 ->
  json_loads w group1 = Ret data ->
  page_view data sections ->
  Forall2 section_view sections itemss ->
  Forall2 (Forall2 entry_view) itemss oss ->
  _extract_video_ids_from_json w body
  = filter _is_valid_video_id (present (concat oss)).
Proof.
  intros Hs Hl Hp Hsec Hitems.
  unfold _extract_video_ids_from_json, try_except.
  rewrite (extract_body_page w body group1 data sections Hs Hl Hp).
  rewrite (extract_contents_view _ _ _ Hsec Hitems). reflexivity.
Qed.

Lemma extract_document_order_witness :
  _extract_video_ids_from_json
    (Scenarios.json_world Pages.clean_data "") "var ytInitialData = {...};"
  = filter _is_valid_video_id
           (present (concat [ [Some "undefined"; None; Some "dQw4w9WgXcQ"; Some "ZZZZZZZZZZZ"];
                              [] ]%string)).
Proof.
  apply (extract_document_order
           (Scenarios.json_world Pages.clean_data "") "var ytInitialData = {...};"
           "{...}" Pages.clean_data Pages.clean_sections [Pages.clean_items; []]).
  - reflexivity.
  - reflexivity.
  - eapply page_sections; reflexivity.
  - apply Forall2_cons; [eapply section_items; reflexivity|].
    apply Forall2_cons; [apply section_other; reflexivity|].
    apply Forall2_nil.
  - apply Forall2_cons; [|apply Forall2_cons; [apply Forall2_nil | apply Forall2_nil]].
    apply Forall2_cons; [eapply entry_video; reflexivity|].
    apply Forall2_cons; [apply entry_other; reflexivity|].
    apply Forall2_cons; [eapply entry_video; reflexivity|].
    apply Forall2_cons; [eapply entry_video; reflexivity|].
    apply Forall2_nil.
Defined.

Lemma extract_contents_prefix done itemss oss later :
  Forall2 section_view done itemss ->
  Forall2 (Forall2 entry_view) itemss oss ->
  forall acc,
    for_each (done ++ later) extract_content acc
    = for_each later extract_content
               (acc ++ filter _is_valid_video_id (present (concat oss))).
Proof.
  intros Hs. revert oss.
  induction Hs as [|content items done itemss Hc _ IH]; intros oss Hi acc.
  - inversion Hi; subst. simpl. now rewrite app_nil_r.
  - inversion Hi as [|? os ? oss' Hitems Hrest]; subst. cbn [app].
    rewrite (for_each_continue _ _ _ _ _ (extract_content_view _ _ _ acc Hc Hitems)).
    rewrite (IH _ Hrest). simpl concat. unfold present.
    rewrite flat_map_app, filter_app, app_assoc. reflexivity.
Qed.

(** X5.  When reading an item raises (it is no dict, its "videoRenderer"
    is no dict, or its "videoId" is a number, a boolean or a container
    of eleven elements), the JSON pass does not come back empty: it gives
    the valid IDs read before that item, and nothing of what follows it,
    in the same section or in later ones. *)
Theorem extract_stops_at_broken_item
        w body group1 data done itemss oss content good os bad rest later :
  Re.search_initial_data body = Some group1 ->
  json_loads w group1 = Ret data ->
  page_view data (done ++ content :: later) ->
  Forall2 section_view done itemss ->
  Forall2 (Forall2 entry_view) itemss oss ->
  section_view content (good ++ bad :: rest) ->
  Forall2 entry_view good os ->
  entry_broken bad ->
  _extract_video_ids_from_json w body
  = filter _is_valid_video_id (present (concat oss ++ os)).
Proof.
  intros Hs Hl Hp Hdone Hitems Hc Hgood Hbad.
  unfold _extract_video_ids_from_json, try_except.
  rewrite (extract_body_page w body group1 data _ Hs Hl Hp).
  rewrite (extract_contents_prefix _ _ _ _ Hdone Hitems).
  set (acc := [] ++ filter _is_valid_video_id (present (concat oss))).
  assert (Hraise : exists e, extract_content content acc
                             = (Raise e, acc ++ filter _is_valid_video_id (present os))).
  { inversion Hc as [d ds items Hsec Hcont E1 E2 | d Hsec E1 E2]; subst.
    - destruct (extract_items_broken good os bad rest Hgood Hbad acc) as (e & He).
      exists e. unfold extract_content, bind, lift. cbn [get]. rewrite Hsec.
      cbn [get]. rewrite Hcont. cbn [iter]. rewrite He. reflexivity.
    - destruct good; discriminate. }
  destruct Hraise as (e & He). rewrite (for_each_raise _ _ _ _ _ _ He).
  subst acc. cbn [snd app]. unfold present.
  now rewrite flat_map_app, filter_app.
Qed.

Lemma extract_stops_at_broken_item_witness :
  _extract_video_ids_from_json
    (Scenarios.json_world Pages.broken_data "") "var ytInitialData = {...};"
  = filter _is_valid_video_id
           (present (concat [[Some "abcdefghijk"%string]] ++ [Some "dQw4w9WgXcQ"%string])).
Proof.
  apply (extract_stops_at_broken_item
           (Scenarios.json_world Pages.broken_data "") "var ytInitialData = {...};"
           "{...}" Pages.broken_data
           [Scenarios.under "itemSectionRenderer"
              (Scenarios.under "contents" (JList [Scenarios.renderer (JStr "abcdefghijk")]))]
           [[Scenarios.renderer (JStr "abcdefghijk")]]
           [[Some "abcdefghijk"%string]]
           (Scenarios.under "itemSectionRenderer"
              (Scenarios.under "contents" (JList Pages.broken_items)))
           [Scenarios.renderer (JStr "dQw4w9WgXcQ")] [Some "dQw4w9WgXcQ"%string]
           (Scenarios.renderer (JInt 7))
           [Scenarios.renderer (JStr "ZZZZZZZZZZZ")]
           [Scenarios.under "itemSectionRenderer"
              (Scenarios.under "contents" (JList [Scenarios.renderer (JStr "YYYYYYYYYYY")]))]).
  - reflexivity.
  - reflexivity.
  - eapply page_sections; reflexivity.
  - apply Forall2_cons; [eapply section_items; reflexivity | apply Forall2_nil].
  - apply Forall2_cons; [|apply Forall2_nil].
    apply Forall2_cons; [eapply entry_video; reflexivity | apply Forall2_nil].
  - eapply section_items; reflexivity.
  - apply Forall2_cons; [eapply entry_video; reflexivity | apply Forall2_nil].
  - eapply (broken_id _ _ (JInt 7) TypeError); reflexivity.
Defined.

(** ** Watch links *)

Lemma chars_append a b :
  list_ascii_of_string (a ++ b) = list_ascii_of_string a ++ list_ascii_of_string b.
Proof. induction a as [|c a IH]; simpl; [reflexivity | now rewrite IH]. Qed.

Lemma chars_length s : List.length (list_ascii_of_string s) = String.length s.
Proof. induction s as [|c s IH]; simpl; [reflexivity | now rewrite IH]. Qed.

Lemma id_chars_append m rest :
  Forall (fun c => Re.id_char c = true) (list_ascii_of_string m) ->
  Re.id_chars (String.length m) (m ++ rest) = Some (m, rest).
Proof.
  induction m as [|c m IH]; intros H; simpl.
  - reflexivity.
  - inversion H as [|? ? Hc Hm]; subst. now rewrite Hc, (IH Hm).
Qed.

Lemma watch_at_link video_id rest :
  String.length video_id = 11 ->
  Forall (fun c => Re.id_char c = true) (list_ascii_of_string video_id) ->
  Re.watch_at ("/watch?v=" ++ video_id ++ rest) = Some video_id.
Proof.
  intros Hlen Hall. unfold Re.watch_at.
  rewrite (literal_complete "/watch?v=" (video_id ++ rest)).
  rewrite <- Hlen, (id_chars_append _ rest Hall). reflexivity.
Qed.

(** A slash in a list cannot come before the end of a slash-free prefix
    of the same list. *)
Lemma slash_after_prefix (a b x y : list ascii) :
  a ++ "/"%char :: b = x ++ y ->
  Forall (fun c => c <> "/"%char) x ->
  List.length x <= List.length a.
Proof.
  revert x. induction a as [|a0 a IH]; intros x E Hx.
  - destruct x as [|c x]; [simpl; lia|].
    simpl in E. injection E as <- _. inversion Hx; subst. contradiction.
  - destruct x as [|c x]; [simpl; lia|].
    simpl in E. injection E as _ E. inversion Hx; subst.
    simpl. apply le_n_S. now apply IH.
Qed.

Lemma id_char_not_slash c : Re.id_char c = true -> c <> "/"%char.
Proof. intros H ->. discriminate H. Qed.

(** A match that starts before a link ends before the link starts. *)
Lemma watch_at_before_link c pre video_id post m :
  Re.watch_at (String c (pre ++ "/watch?v=" ++ video_id ++ post)) = Some m ->
  19 <= String.length pre.
Proof.
  intros H. apply watch_at_sound in H. destruct H as (Hlen & Hall & rest & E).
  cbn [String.append] in E. injection E as _ E.
  apply (f_equal list_ascii_of_string) in E.
  rewrite chars_append in E. cbn [list_ascii_of_string] in E.
  rewrite !chars_append in E.
  assert (Hle : List.length (list_ascii_of_string "watch?v=" ++ list_ascii_of_string m)
                <= List.length (list_ascii_of_string pre)).
  { eapply (slash_after_prefix _ _ _ (list_ascii_of_string rest)).
    - rewrite <- app_assoc. exact E.
    - apply Forall_app. split.
      + repeat constructor; discriminate.
      + eapply Forall_impl; [|exact Hall]. intros a. apply id_char_not_slash. }
  rewrite length_app, !chars_length, Hlen in Hle. simpl in Hle. lia.
Qed.

Lemma findall_watch_from_link pre video_id post :
  String.length video_id = 11 ->
  Forall (fun c => Re.id_char c = true) (list_ascii_of_string video_id) ->
  forall skip,
    skip <= String.length pre ->
    In video_id (Re.findall_watch_from skip (pre ++ "/watch?v=" ++ video_id ++ post)).
Proof.
  intros Hlen Hall. induction pre as [|c pre IH]; intros skip Hskip.
  - assert (skip = 0) as -> by (simpl in Hskip; lia).
    pose proof (watch_at_link video_id post Hlen Hall) as Hw.
    cbn [String.append] in *. cbn [Re.findall_watch_from]. rewrite Hw. now left.
  - cbn [String.append Re.findall_watch_from]. destruct skip as [|k].
    + destruct (Re.watch_at _) as [m|] eqn:Hm.
      * right. apply IH. eapply watch_at_before_link, Hm.
      * apply IH. lia.
    + apply IH. simpl in Hskip. lia.
Qed.

Lemma findall_watch_finds_link_aux pre video_id post :
  String.length video_id = 11 ->
  Forall (fun c => Re.id_char c = true) (list_ascii_of_string video_id) ->
  In video_id (Re.findall_watch (pre ++ "/watch?v=" ++ video_id ++ post)).
Proof.
  intros Hlen Hall. apply findall_watch_from_link; [assumption | assumption | lia].
Qed.

(** X6.  The regex pass misses no watch link: a page that has
    [/watch?v=] followed by eleven characters of [[a-zA-Z0-9_-]]
    anywhere has that ID among the regex matches, whatever comes
    before and after it. *)
Theorem findall_watch_finds_link pre video_id post :
  String.length video_id = 11 ->
  Forall (fun c => Re.id_char c = true) (list_ascii_of_string video_id) ->
  In video_id (Re.findall_watch (pre ++ "/watch?v=" ++ video_id ++ post)).
Proof.
  intros Hlen Hall. now apply findall_watch_finds_link_aux.
Qed.

Lemma findall_watch_finds_link_witness :
  In "dQw4w9WgXcQ"%string
     (Re.findall_watch ("<a href=/watch?v=AAAAAAAAAAA><a href=" ++ "/watch?v="
                        ++ "dQw4w9WgXcQ" ++ "&t=1>")).
Proof.
  apply (findall_watch_finds_link "<a href=/watch?v=AAAAAAAAAAA><a href="
           "dQw4w9WgXcQ" "&t=1>").
  - reflexivity.
  - repeat constructor.
Defined.

Lemma findall_watch_from_short s : forall skip,
  String.length s <= skip -> Re.findall_watch_from skip s = [].
Proof.
  induction s as [|c s IH]; intros skip H; simpl; [reflexivity|].
  destruct skip as [|k]; [simpl in H; lia|]. apply IH. simpl in H. lia.
Qed.

(** X7.  The watch URL built for a well-formed ID reads back: the
    [/watch?v=] regex of the scraper finds in [get_watch_url id] the one
    match [id]. *)
Theorem watch_url_round_trip self video_id :
  String.length video_id = 11 ->
  Forall (fun c => Re.id_char c = true) (list_ascii_of_string video_id) ->
  Re.findall_watch (get_watch_url self video_id) = [video_id].
Proof.
  intros Hlen Hall. unfold get_watch_url, Re.findall_watch.
  pose proof (watch_at_link video_id "" Hlen Hall) as Hw.
  rewrite append_empty_r in Hw.
  cbn [String.append] in *.
  do 23 (cbn [Re.findall_watch_from];
         match goal with
         | |- context [Re.watch_at ?s] =>
             replace (Re.watch_at s) with (@None string) by reflexivity
         end; cbv iota).
  rewrite Hw, findall_watch_from_short by lia. reflexivity.
Qed.

Lemma watch_url_round_trip_witness :
  Re.findall_watch (get_watch_url Doubles.with_api "dQw4w9WgXcQ") = ["dQw4w9WgXcQ"%string].
Proof.
  apply (watch_url_round_trip Doubles.with_api "dQw4w9WgXcQ").
  - reflexivity.
  - repeat constructor.
Defined.

(** ** Both loops, at the variant they have got to *)

Lemma api_at_reached w song_title artists log0 search_query later log :
  loop_reaches (api_variant w song_title (artist_str_of artists) artists)
               (api_queries song_title (artist_str_of artists)) log0
               (search_query :: later) log ->
  _search_with_api w song_title artists log0
  = match api_verdict w song_title (artist_str_of artists) artists log search_query with
    | Continue =>
        for_each later (api_variant w song_title (artist_str_of artists) artists)
                 (log ++ [ApiCall search_query])
    | Break => (Ret None, log ++ [ApiCall search_query])
    | Return video_id => (Ret (Some video_id), log ++ [ApiCall search_query])
    end.
Proof.
  intros Hreach.
  rewrite search_with_api_eq, (for_each_reaches _ _ _ _ _ Hreach).
  pose proof (api_variant_eq w song_title (artist_str_of artists) artists
                search_query log) as Hstep.
  destruct (api_verdict _ _ _ _ _ _) as [| |v].
  - apply for_each_continue, Hstep.
  - apply for_each_break, Hstep.
  - apply for_each_return, Hstep.
Qed.

Lemma scraping_at_reached w song_title artists log0 search_query later log :
  whitespace_only song_title = false ->
  loop_reaches (scrape_variant w)
               (scraping_queries song_title (artist_str_of artists)) log0
               (search_query :: later) log ->
  _search_with_scraping w song_title artists log0
  = match scrape_verdict w log search_query with
    | Return vid_id =>
        (Ret (Some vid_id), log ++ [HttpGet (search_url_of (Py.strip search_query))])
    | _ =>
        for_each later (scrape_variant w)
                 (log ++ [HttpGet (search_url_of (Py.strip search_query))])
    end.
Proof.
  intros Hblank Hreach.
  destruct (scrape_loop_reaches_log _ _ _ _ _ Hreach
              (scraping_queries_nonblank _ _ Hblank)) as (Hys & _).
  assert (Hq : whitespace_only search_query = false) by (inversion Hys; assumption).
  rewrite search_with_scraping_eq, strip_empty, Hblank, orb_false_r.
  replace (Py.is_empty song_title) with false
    by (destruct song_title; [discriminate Hblank | reflexivity]).
  rewrite (for_each_reaches _ _ _ _ _ Hreach).
  pose proof (scrape_variant_eq w search_query log) as Hstep.
  rewrite strip_empty, Hq in Hstep.
  assert (Hnb : scrape_verdict w log search_query <> Break).
  { unfold scrape_verdict. destruct (session_get w log _) as [r|e]; [|discriminate].
    destruct (status_code r =? 200)%Z; [|discriminate].
    rewrite scrape_text_passes.
    destruct (_extract_video_ids_from_json w (text r)); [|discriminate].
    destruct (find _ _); discriminate. }
  destruct (scrape_verdict w log search_query) as [| |v].
  - apply for_each_continue, Hstep.
  - contradiction.
  - apply for_each_return, Hstep.
Qed.

Lemma find_exists {A} (f : A -> bool) l x :
  In x l -> f x = true -> exists y, find f l = Some y.
Proof.
  intros Hin Hx. destruct (find f l) as [y|] eqn:Hf; [eauto|].
  exfalso. pose proof (find_none f l Hf x Hin). congruence.
Qed.

(** X8.  The scraping strategy does not pass over a page with a usable
    link: when the variant it has got to is answered 200 with a body that
    has [/watch?v=] followed by an ID passing the format check, the call
    returns a valid ID with that request as its last. *)
Theorem scraping_returns_on_link
        w song_title artists log0 search_query later log pre video_id post :
  whitespace_only song_title = false ->
  loop_reaches (scrape_variant w)
               (scraping_queries song_title (artist_str_of artists)) log0
               (search_query :: later) log ->
  session_get w log (search_url_of (Py.strip search_query))
  = Ret (mkHttp 200 (pre ++ "/watch?v=" ++ video_id ++ post)) ->
  _is_valid_video_id video_id = true ->
  exists found,
    _search_with_scraping w song_title artists log0
    = (Ret (Some found), log ++ [HttpGet (search_url_of (Py.strip search_query))]) /\
    _is_valid_video_id found = true.
Proof.
  intros Hblank Hreach Hget Hvalid.
  rewrite (scraping_at_reached _ _ _ _ _ _ _ Hblank Hreach).
  unfold scrape_verdict. rewrite Hget. cbn [status_code text]. simpl Z.eqb. cbv iota.
  pose proof (proj1 (is_valid_video_id_iff _) Hvalid) as (Hlen & Hall & _).
  destruct (find_exists _ _ _ (findall_watch_finds_link_aux pre video_id post Hlen Hall) Hvalid)
    as (y & Hy).
  pose proof (scrape_text_passes w (pre ++ "/watch?v=" ++ video_id ++ post)) as Hp.
  rewrite Hy in Hp.
  destruct (scrape_text w _) as [| |v] eqn:Hres.
  - destruct (_extract_video_ids_from_json w _); discriminate Hp.
  - destruct (_extract_video_ids_from_json w _); discriminate Hp.
  - exists v. split; [reflexivity|]. eapply scrape_text_valid, Hres.
Qed.

Lemma scraping_returns_on_link_witness :
  exists found,
    _search_with_scraping Scenarios.watch_page "X" [] []
    = (Ret (Some found),
       [] ++ [HttpGet (search_url_of (Py.strip "X  official audio"))]) /\
    _is_valid_video_id found = true.
Proof.
  apply (scraping_returns_on_link Scenarios.watch_page "X" [] []
           "X  official audio" ["X  official"; "X  music"; "X "]%string []
           "<a href=" "dQw4w9WgXcQ" ">").
  - reflexivity.
  - apply reaches_here.
  - reflexivity.
  - reflexivity.
Defined.

(** ** URLs *)

Lemma quote_char_safe c :
  forallb url_safe (list_ascii_of_string (Py.quote_char c)) = true.
Proof. destruct c as [[] [] [] [] [] [] [] []]; reflexivity. Qed.

Lemma quote_safe s : forallb url_safe (list_ascii_of_string (Py.quote s)) = true.
Proof.
  induction s as [|c s IH]; [reflexivity|].
  cbn [Py.quote]. now rewrite chars_append, forallb_app, quote_char_safe, IH.
Qed.

(** X9.  The search URL is the fixed results address followed by the
    quoted query, and the quoted query holds nothing but unreserved
    characters, slashes and percent escapes: no space, [&], [#], [?],
    [=] or [+] of the query can reach the URL unescaped. *)
Theorem search_url_query_escaped search_query :
  search_url_of search_query
  = ("https://www.youtube.com/results?search_query=" ++ Py.quote search_query)%string /\
  forallb url_safe (list_ascii_of_string (Py.quote search_query)) = true /\
  forall c, In c [" "; "&"; "#"; "?"; "="; "+"]%char ->
            ~ In c (list_ascii_of_string (Py.quote search_query)).
Proof.
  split; [reflexivity|]. split; [apply quote_safe|].
  intros c Hc Hin.
  pose proof (proj1 (forallb_forall _ _) (quote_safe search_query) c Hin) as Hs.
  simpl in Hc.
  destruct Hc as [<-|[<-|[<-|[<-|[<-|[<-|[]]]]]]]; discriminate Hs.
Qed.

Lemma append_inj_l p a b : (p ++ a)%string = (p ++ b)%string -> a = b.
Proof.
  induction p as [|c p IH]; cbn [String.append]; intros H; [exact H|].
  injection H as H. now apply IH.
Qed.

Lemma append_inj_r t a b : (a ++ t)%string = (b ++ t)%string -> a = b.
Proof.
  intros H. apply (f_equal list_ascii_of_string) in H.
  rewrite !chars_append in H. apply app_inv_tail in H.
  apply (f_equal string_of_list_ascii) in H.
  now rewrite !string_of_list_ascii_of_string in H.
Qed.

(** X10.  Both URL builders are injective in the video ID: two IDs with
    the same watch URL, or the same embed URL, are the same ID. *)
Theorem url_builders_injective self self' video_id video_id' :
  get_watch_url self video_id = get_watch_url self' video_id' \/
  get_embed_url self video_id = get_embed_url self' video_id' ->
  video_id = video_id'.
Proof.
  unfold get_watch_url, get_embed_url. intros [H|H].
  - now apply append_inj_l in H.
  - apply append_inj_l in H. now apply append_inj_r in H.
Qed.

Lemma url_builders_injective_witness : "dQw4w9WgXcQ"%string = "dQw4w9WgXcQ"%string.
Proof.
  apply (url_builders_injective Doubles.with_api Doubles.without_api
           "dQw4w9WgXcQ" "dQw4w9WgXcQ").
  right. reflexivity.
Defined.

(** ** Which artists count *)

Lemma for_each_ext {S X R : Type} (body body' : X -> M S (ctl R)) :
  (forall x s, body x s = body' x s) ->
  forall xs s, for_each xs body s = for_each xs body' s.
Proof.
  intros E. induction xs as [|x xs IH]; intros s; [reflexivity|].
  simpl. unfold bind. rewrite E.
  destruct (body' x s) as [[[| |r]|e] s1]; auto.
Qed.

Lemma artist_str_of_firstn artists :
  artist_str_of (firstn 2 artists) = artist_str_of artists.
Proof. destruct artists as [|a [|b rest]]; reflexivity. Qed.

Lemma api_item_firstn song_title artist_str artists it :
  api_item song_title artist_str (firstn 2 artists) it
  = api_item song_title artist_str artists it.
Proof. unfold api_item, artist_match. now rewrite firstn_firstn. Qed.

Lemma api_variant_firstn w song_title artist_str artists q log :
  api_variant w song_title artist_str (firstn 2 artists) q log
  = api_variant w song_title artist_str artists q log.
Proof.
  unfold api_variant, try_except, bind.
  destruct (execute w q log) as [[response|e] log1]; [|reflexivity].
  unfold api_response_body. destruct response as [items|]; [|reflexivity].
  destruct (0 <? List.length items)%nat; [|reflexivity].
  unfold bind.
  rewrite (for_each_ext
             (fun it => lift (api_item song_title artist_str (firstn 2 artists) it))
             (fun it => lift (api_item song_title artist_str artists it)));
    [reflexivity|].
  intros it s. unfold lift. now rewrite api_item_firstn.
Qed.

(** X11.  Only the first two artists count: [search_video_id] gives the
    same result and issues the same requests when every artist after the
    second is dropped, under either strategy. *)
Theorem only_first_two_artists w self song_title artists log :
  search_video_id w self song_title artists log
  = search_video_id w self song_title (firstn 2 artists) log.
Proof.
  unfold search_video_id. destruct (youtube_api self).
  - rewrite !search_with_api_eq, artist_str_of_firstn.
    apply for_each_ext. intros q s. symmetry. apply api_variant_firstn.
  - rewrite !search_with_scraping_eq, artist_str_of_firstn. reflexivity.
Qed.

(** ** How many requests, and which *)

(** A loop whose body never raises either passes every element, or gets
    to an element on which the body says [break] or [return]. *)
Lemma for_each_run {S X R : Type} (body : X -> M S (ctl R)) :
  (forall x s, exists c s', body x s = (Ret c, s')) ->
  forall xs s,
    (exists s', loop_reaches body xs s [] s' /\ for_each xs body s = (Ret None, s')) \/
    (exists x later s1 c s2,
        loop_reaches body xs s (x :: later) s1 /\
        body x s1 = (Ret c, s2) /\
        c <> Continue /\
        for_each xs body s
        = (match c with Return r => Ret (Some r) | _ => Ret None end, s2)).
Proof.
  intros Htotal. induction xs as [|x xs IH]; intros s.
  - left. exists s. split; [apply reaches_here | reflexivity].
  - destruct (Htotal x s) as (c & s1 & Hx). destruct c as [| |r].
    + rewrite (for_each_continue _ _ _ _ _ Hx).
      destruct (IH s1) as [(s' & Hr & He) | (y & later & t1 & c & t2 & Hr & Hy & Hc & He)].
      * left. exists s'. split; [eapply reaches_next; eassumption | exact He].
      * right. exists y, later, t1, c, t2.
        repeat split; try assumption. eapply reaches_next; eassumption.
    + right. exists x, xs, s, Break, s1.
      repeat split; [apply reaches_here | exact Hx | discriminate |].
      apply for_each_break, Hx.
    + right. exists x, xs, s, (Return r), s1.
      repeat split; [apply reaches_here | exact Hx | discriminate |].
      apply for_each_return, Hx.
Qed.

(** The only exception handling a response can raise is the [KeyError]
    of an item without [id.videoId]; it never says [break]. *)
Lemma api_item_outcome song_title artist_str artists it :
  match api_item song_title artist_str artists it with
  | Ret Break => False
  | Ret _ => True
  | Raise e => e = KeyError /\ item_videoId it = None
  end.
Proof.
  unfold api_item. destruct (item_videoId it) as [v|]; [|now split].
  destruct (negb _); [exact I|].
  destruct (filtered_out _); [exact I|].
  destruct (is_official _ && _); [exact I|].
  destruct (title_match _ _ && _); exact I.
Qed.

Lemma api_scan_outcome song_title artist_str artists items :
  forall log : list event,
  match fst (for_each items
               (fun it => lift (api_item song_title artist_str artists it)) log) with
  | Ret _ => True
  | Raise e => e = KeyError
  end.
Proof.
  induction items as [|it items IH]; intros log; [exact I|].
  simpl. unfold bind, lift.
  pose proof (api_item_outcome song_title artist_str artists it) as Hit.
  destruct (api_item song_title artist_str artists it) as [[| |v]|e].
  - apply IH.
  - exact I.
  - exact I.
  - apply Hit.
Qed.

Lemma api_response_body_outcome song_title artist_str artists response :
  match fst (api_response_body song_title artist_str artists response []) with
  | Ret Break => False
  | Ret _ => True
  | Raise e => e = KeyError
  end.
Proof.
  unfold api_response_body. destruct response as [items|]; [|exact I].
  destruct (0 <? List.length items)%nat; [|exact I].
  unfold bind.
  pose proof (api_scan_outcome song_title artist_str artists items []) as Hscan.
  destruct (for_each items _ []) as [[[v|]|e] s0]; simpl in *.
  - exact I.
  - unfold lift, api_first_result. simpl.
    destruct items as [|first rest]; [exact I|].
    destruct (item_videoId first) as [v|]; [|reflexivity].
    destruct (_is_valid_video_id v); exact I.
  - exact Hscan.
Qed.

(** The API loop breaks on an HTTP 403 and on nothing else. *)
Lemma api_verdict_break w song_title artist_str artists log q :
  api_verdict w song_title artist_str artists log q = Break <->
  api_execute w log q = Raise (HttpError 403).
Proof.
  unfold api_verdict. split.
  - destruct (api_execute w log q) as [response|e].
    + pose proof (api_response_body_outcome song_title artist_str artists response) as Hb.
      destruct (fst (api_response_body _ _ _ response [])) as [c|e].
      * intros ->. contradiction.
      * subst e. discriminate.
    + destruct e; simpl; try discriminate.
      destruct (status =? 403)%Z eqn:E; [|discriminate].
      apply Z.eqb_eq in E. now subst.
  - intros ->. reflexivity.
Qed.

(** The scraping loop has no [break]. *)
Lemma scrape_verdict_not_break w log q : scrape_verdict w log q <> Break.
Proof.
  unfold scrape_verdict. destruct (session_get w log _) as [r|e]; [|discriminate].
  destruct (status_code r =? 200)%Z; [|discriminate].
  rewrite scrape_text_passes.
  destruct (_extract_video_ids_from_json w (text r)); [|discriminate].
  destruct (find _ _); discriminate.
Qed.

(** X12.  The API calls of one call of the API strategy are its query
    variants from the first on, in order, none skipped and none
    repeated: at most four.  When the call returns none having issued
    some but not all of them, the last one issued was answered by an
    HTTP 403, in the very run. *)
Theorem api_calls_are_a_prefix w song_title artists log :
  exists issued rest,
    api_queries song_title (artist_str_of artists) = issued ++ rest /\
    List.length issued <= 4 /\
    snd (_search_with_api w song_title artists log) = log ++ map ApiCall issued /\
    (fst (_search_with_api w song_title artists log) = Ret None ->
     issued <> [] ->
     rest <> [] ->
     exists done q,
       issued = done ++ [q] /\
       api_execute w (log ++ map ApiCall done) q = Raise (HttpError 403)).
Proof.
  rewrite search_with_api_eq.
  assert (Hlen : forall issued rest,
             api_queries song_title (artist_str_of artists) = issued ++ rest ->
             List.length issued <= 4).
  { intros issued rest E. apply (f_equal (@List.length string)) in E.
    rewrite length_app in E. simpl in E. lia. }
  destruct (for_each_run (api_variant w song_title (artist_str_of artists) artists))
    with (xs := api_queries song_title (artist_str_of artists)) (s := log)
    as [(s' & Hreach & Hrun) | (q & later & s1 & c & s2 & Hreach & Hq & Hc & Hrun)].
  { intros q s. rewrite api_variant_eq. eexists. eexists. reflexivity. }
  - destruct (api_loop_reaches_log _ _ _ _ _ _ _ _ Hreach) as (done & E & ->).
    exists done, []. rewrite Hrun.
    repeat split; [exact E | exact (Hlen _ _ E) | contradiction].
  - destruct (api_loop_reaches_log _ _ _ _ _ _ _ _ Hreach) as (done & E & ->).
    rewrite api_variant_eq in Hq. injection Hq as Hv <-.
    exists (done ++ [q]), later. rewrite Hrun.
    assert (E' : api_queries song_title (artist_str_of artists) = (done ++ [q]) ++ later)
      by (now rewrite <- app_assoc).
    repeat split; [exact E' | exact (Hlen _ _ E') | |].
    + cbn [snd]. now rewrite map_app, app_assoc.
    + intros Hnone _ _. exists done, q. split; [reflexivity|].
      apply (api_verdict_break w song_title (artist_str_of artists) artists).
      rewrite Hv. destruct c as [| |r]; [contradiction | reflexivity | discriminate Hnone].
Qed.

(** X13.  The GETs of one call of the scraping strategy are for its
    query variants from the first on, in order, none skipped and none
    repeated: at most four.  The strategy cannot give up half way: when
    it returns none having issued a GET at all, it has issued all four. *)
Theorem scraping_gets_are_a_prefix w song_title artists log :
  exists issued rest,
    scraping_queries song_title (artist_str_of artists) = issued ++ rest /\
    List.length issued <= 4 /\
    snd (_search_with_scraping w song_title artists log)
    = log ++ map (fun q => HttpGet (search_url_of (Py.strip q))) issued /\
    (fst (_search_with_scraping w song_title artists log) = Ret None ->
     issued <> [] ->
     rest = []).
Proof.
  assert (Hlen : forall issued rest,
             scraping_queries song_title (artist_str_of artists) = issued ++ rest ->
             List.length issued <= 4).
  { intros issued rest E. apply (f_equal (@List.length string)) in E.
    rewrite length_app in E. simpl in E. lia. }
  rewrite search_with_scraping_eq, strip_empty.
  destruct (whitespace_only song_title) eqn:Hblank.
  - rewrite orb_true_r.
    exists [], (scraping_queries song_title (artist_str_of artists)).
    repeat split; [simpl; lia | simpl; now rewrite app_nil_r | contradiction].
  - rewrite orb_false_r.
    replace (Py.is_empty song_title) with false
      by (destruct song_title; [discriminate Hblank | reflexivity]).
    pose proof (scraping_queries_nonblank song_title (artist_str_of artists) Hblank) as Hnb.
    destruct (for_each_run (scrape_variant w))
      with (xs := scraping_queries song_title (artist_str_of artists)) (s := log)
      as [(s' & Hreach & Hrun) | (q & later & s1 & c & s2 & Hreach & Hq & Hc & Hrun)].
    { intros q s. rewrite scrape_variant_eq.
      destruct (Py.is_empty _); eexists; eexists; reflexivity. }
    + destruct (scrape_loop_reaches_log _ _ _ _ _ Hreach Hnb) as (_ & done & E & ->).
      exists done, []. rewrite Hrun.
      repeat split; [exact E | exact (Hlen _ _ E)].
    + destruct (scrape_loop_reaches_log _ _ _ _ _ Hreach Hnb) as (Hys & done & E & ->).
      assert (Hqnb : whitespace_only q = false) by (inversion Hys; assumption).
      rewrite scrape_variant_eq, strip_empty, Hqnb in Hq. injection Hq as Hv <-.
      exists (done ++ [q]), later. rewrite Hrun.
      assert (E' : scraping_queries song_title (artist_str_of artists)
                   = (done ++ [q]) ++ later)
        by (now rewrite <- app_assoc).
      repeat split; [exact E' | exact (Hlen _ _ E') | |].
      * cbn [snd]. now rewrite map_app, app_assoc.
      * intros Hnone _. exfalso. destruct c as [| |r].
        -- contradiction.
        -- now apply scrape_verdict_not_break in Hv.
        -- discriminate Hnone.
Qed.

(** ** Failures that cost one variant only *)

(** X14.  In the API strategy a request that raises anything but an
    HTTP 403 (another HTTP status, a timeout, a connection error, ...)
    costs that variant only: the call goes on with the next variant as
    if the variant had had no results. *)
Theorem api_other_error_continues w song_title artists log0 search_query later log e :
  loop_reaches (api_variant w song_title (artist_str_of artists) artists)
               (api_queries song_title (artist_str_of artists)) log0
               (search_query :: later) log ->
  api_execute w log search_query = Raise e ->
  e <> HttpError 403 ->
  _search_with_api w song_title artists log0
  = for_each later (api_variant w song_title (artist_str_of artists) artists)
             (log ++ [ApiCall search_query]).
Proof.
  intros Hreach Hex Hne.
  rewrite (api_at_reached _ _ _ _ _ _ _ Hreach).
  unfold api_verdict. rewrite Hex.
  destruct e; simpl; try reflexivity.
  destruct (status =? 403)%Z eqn:E; [|reflexivity].
  apply Z.eqb_eq in E. subst. contradiction.
Qed.

Lemma api_other_error_continues_witness :
  _search_with_api (Doubles.api_world (fun _ => Raise (HttpError 500))) "Song" ["Art"] []
  = for_each ["Song Art official"; "Song Art"; "Song Art music"]%string
             (api_variant (Doubles.api_world (fun _ => Raise (HttpError 500)))
                          "Song" (artist_str_of ["Art"]) ["Art"])
             ([] ++ [ApiCall "Song Art official audio"]).
Proof.
  apply (api_other_error_continues
           (Doubles.api_world (fun _ => Raise (HttpError 500))) "Song" ["Art"] []
           "Song Art official audio" ["Song Art official"; "Song Art"; "Song Art music"]%string
           [] (HttpError 500)).
  - apply reaches_here.
  - reflexivity.
  - discriminate.
Defined.

(** X15.  In the API strategy an item without [id.videoId] voids its
    whole variant: when no item before it satisfies rule (a) or (b), the
    call goes on with the next variant, whatever the items after it are
    and even when the first result has a valid ID; the first-result
    fallback is not reached. *)
Theorem api_item_without_id_voids_variant
        w song_title artists log0 search_query later log before bad after :
  loop_reaches (api_variant w song_title (artist_str_of artists) artists)
               (api_queries song_title (artist_str_of artists)) log0
               (search_query :: later) log ->
  api_execute w log search_query = Ret (Some (before ++ bad :: after)) ->
  Forall (fun it => api_item song_title (artist_str_of artists) artists it = Ret Continue)
         before ->
  item_videoId bad = None ->
  _search_with_api w song_title artists log0
  = for_each later (api_variant w song_title (artist_str_of artists) artists)
             (log ++ [ApiCall search_query]).
Proof.
  intros Hreach Hex Hbefore Hbad.
  rewrite (api_at_reached _ _ _ _ _ _ _ Hreach).
  unfold api_verdict. rewrite Hex. unfold api_response_body.
  replace (0 <? List.length (before ++ bad :: after))%nat with true
    by (destruct before; reflexivity).
  unfold bind.
  assert (Hscan : for_each (before ++ bad :: after)
                    (fun it => lift (api_item song_title (artist_str_of artists) artists it))
                    (@nil event)
                  = (Raise KeyError, [])).
  { clear Hex. induction Hbefore as [|b before Hb _ IH]; cbn [app].
    - apply for_each_raise. unfold lift, api_item. now rewrite Hbad.
    - rewrite (for_each_continue _ b _ [] []); [exact IH|].
      unfold lift. now rewrite Hb. }
  rewrite Hscan. reflexivity.
Qed.

Lemma api_item_without_id_voids_variant_witness :
  _search_with_api
    (Doubles.api_world (fun _ => Ret (Some [Cases.cover; mkItem None (Some "Song - Art") None;
                                             Cases.official])))
    "Song" ["Art"] []
  = for_each ["Song Art official"; "Song Art"; "Song Art music"]%string
             (api_variant
                (Doubles.api_world (fun _ => Ret (Some [Cases.cover;
                                                         mkItem None (Some "Song - Art") None;
                                                         Cases.official])))
                "Song" (artist_str_of ["Art"]) ["Art"])
             ([] ++ [ApiCall "Song Art official audio"]).
Proof.
  apply (api_item_without_id_voids_variant
           (Doubles.api_world (fun _ => Ret (Some [Cases.cover;
                                                    mkItem None (Some "Song - Art") None;
                                                    Cases.official])))
           "Song" ["Art"] []
           "Song Art official audio" ["Song Art official"; "Song Art"; "Song Art music"]%string
           [] [Cases.cover] (mkItem None (Some "Song - Art") None) [Cases.official]).
  - apply reaches_here.
  - reflexivity.
  - apply Forall_cons; [reflexivity | apply Forall_nil].
  - reflexivity.
Defined.

(** X16.  In the scraping strategy a request that raises (a timeout or
    anything else) or is answered with a status other than 200 costs
    that variant only: the call goes on with the next variant. *)
Theorem scraping_failure_continues w song_title artists log0 search_query later log :
  whitespace_only song_title = false ->
  loop_reaches (scrape_variant w)
               (scraping_queries song_title (artist_str_of artists)) log0
               (search_query :: later) log ->
  match session_get w log (search_url_of (Py.strip search_query)) with
  | Ret response => status_code response <> 200%Z
  | Raise _ => True
  end ->
  _search_with_scraping w song_title artists log0
  = for_each later (scrape_variant w)
             (log ++ [HttpGet (search_url_of (Py.strip search_query))]).
Proof.
  intros Hblank Hreach Hfail.
  rewrite (scraping_at_reached _ _ _ _ _ _ _ Hblank Hreach).
  unfold scrape_verdict.
  destruct (session_get w log _) as [response|e]; [|reflexivity].
  destruct (status_code response =? 200)%Z eqn:E; [|reflexivity].
  apply Z.eqb_eq in E. contradiction.
Qed.

Lemma scraping_failure_continues_witness :
  _search_with_scraping Doubles.silent "X" [] []
  = for_each ["X  official"; "X  music"; "X "]%string (scrape_variant Doubles.silent)
             ([] ++ [HttpGet (search_url_of (Py.strip "X  official audio"))]).
Proof.
  apply (scraping_failure_continues Doubles.silent "X" [] []
           "X  official audio" ["X  official"; "X  music"; "X "]%string []).
  - reflexivity.
  - apply reaches_here.
  - simpl. discriminate.
Defined.

(** ** Where a returned ID comes from *)







(** ** The official test *)

Lemma prefix_of_longer a b hay :
  prefix (a ++ b) hay = true -> prefix a hay = true.
Proof.
  revert hay. induction a as [|c a IH]; intros hay H.
  - now destruct hay.
  - destruct hay as [|h hay]; [discriminate H|].
    cbn [String.append prefix] in *.
    destruct (ascii_dec c h); [now apply IH | discriminate H].
Qed.

Lemma contains_of_longer a b hay :
  Py.contains (a ++ b) hay = true -> Py.contains a hay = true.
Proof.
  induction hay as [|h hay IH]; cbn [Py.contains]; intros H.
  - apply orb_true_iff in H. destruct H as [H|H]; [|discriminate H].
    now rewrite (prefix_of_longer a b _ H).
  - apply orb_true_iff in H. destruct H as [H|H].
    + now rewrite (prefix_of_longer a b _ H).
    + rewrite (IH H). apply orb_true_r.
Qed.

(** X19.  Of the three substring tests of [is_official] only the first
    decides: a title counts as official exactly when it contains
    "official"; the tests for "official audio" and "official video" never
    change the outcome. *)
Theorem is_official_is_one_test title :
  is_official title = Py.contains "official" title.
Proof.
  unfold is_official.
  destruct (Py.contains "official" title) eqn:H; [reflexivity|].
  destruct (Py.contains "official audio" title) eqn:Ha.
  - apply (contains_of_longer "official" " audio") in Ha. congruence.
  - destruct (Py.contains "official video" title) eqn:Hv; [|reflexivity].
    apply (contains_of_longer "official" " video") in Hv. congruence.
Qed.

(** ** The singleton *)

(** X20.  [get_youtube_service] builds the service once: whatever the
    environment at the second call, the second call returns the service
    of the first and leaves the global as it was.  So a service first
    built without a key stays without an API client when a key is set
    later. *)
Theorem service_is_built_once env env' _youtube_service :
  fst (get_youtube_service env' (snd (get_youtube_service env _youtube_service)))
  = fst (get_youtube_service env _youtube_service) /\
  snd (get_youtube_service env' (snd (get_youtube_service env _youtube_service)))
  = snd (get_youtube_service env _youtube_service) /\
  snd (get_youtube_service env _youtube_service)
  = Some (fst (get_youtube_service env _youtube_service)) /\
  match _youtube_service with
  | None =>
      fst (get_youtube_service env None) = new_service env /\
      (env_youtube_api_key env = ""%string ->
       youtube_api (fst (get_youtube_service env' (snd (get_youtube_service env None))))
       = None)
  | Some service => fst (get_youtube_service env (Some service)) = service
  end.
Proof.
  destruct _youtube_service as [service|]; simpl; repeat split.
  intros Hkey. unfold new_service, init. simpl. now rewrite Hkey.
Qed.

(** ** The database URL *)

Section DatabaseFacts.

Import Database.

Lemma replace_first_eq old new s :
  replace_first old new s
  = match Re.literal old s with
    | Some rest => (new ++ rest)%string
    | None =>
        match s with
        | EmptyString => EmptyString
        | String c s' => String c (replace_first old new s')
        end
    end.
Proof. destruct s; reflexivity. Qed.

Lemma prefix_literal p : forall s,
  prefix p s = true -> exists rest, Re.literal p s = Some rest /\ s = (p ++ rest)%string.
Proof.
  induction p as [|a p IH]; intros s H.
  - exists s. split; reflexivity.
  - destruct s as [|c s]; [discriminate H|].
    cbn [prefix] in H. destruct (ascii_dec a c) as [<-|]; [|discriminate H].
    destruct (IH s H) as (rest & Hl & ->). exists rest.
    cbn [Re.literal String.append]. rewrite Ascii.eqb_refl. now split.
Qed.

(** A leading [postgres://] becomes [postgresql://]; nothing else changes. *)
Lemma replace_scheme db_url :
  prefix "postgres://" db_url = true ->
  exists rest, db_url = ("postgres://" ++ rest)%string /\
               replace_first "postgres://" "postgresql://" db_url
               = ("postgresql://" ++ rest)%string.
Proof.
  intros H. destruct (prefix_literal _ _ H) as (rest & Hl & E).
  exists rest. split; [exact E|]. now rewrite replace_first_eq, Hl.
Qed.

(** X21.  [get_database_url] never returns a URL with the scheme
    [postgres://]: what it returns starts with [postgresql://] or
    [sqlite:///], or is the value of DATABASE_URL unchanged, which then
    does not start with [postgres://]. *)
Theorem database_url_scheme os :
  match fst (get_database_url os) with
  | Done database_url =>
      prefix "postgres://" database_url = false /\
      (prefix "postgresql://" database_url = true \/
       prefix "sqlite:///" database_url = true \/
       environ os "DATABASE_URL" = Some database_url)
  | OSError => True
  | PrintError => True
  end.
Proof.
  unfold get_database_url.
  destruct (getenv_truthy os "DATABASE_URL") as [db_url|] eqn:Hurl.
  - assert (Henv : environ os "DATABASE_URL" = Some db_url).
    { unfold getenv_truthy in Hurl. destruct (environ os "DATABASE_URL") as [v|]; [|discriminate].
      destruct (Py.is_empty v); [discriminate | exact Hurl]. }
    destruct (prefix "postgres://" db_url) eqn:Hp; cbn [fst].
    + destruct (replace_scheme _ Hp) as (rest & _ & ->).
      split; [reflexivity | left; apply prefix_append].
    + split; [exact Hp | right; right; exact Henv].
  - destruct (getenv_truthy os "DB_PASSWORD") as [pw|]; cbn [fst].
    + split; [reflexivity | left; apply prefix_append].
    + destruct (print os NoCredentialsWarning); cbn [negb fst]; [|exact I].
      destruct (print os SetVariablesHint); cbn [negb fst]; [|exact I].
      destruct (makedirs os _); cbn [fst]; [|exact I].
      split; [reflexivity | right; left; apply prefix_append].
Qed.

(** X22.  A DATABASE_URL of the form [postgres://rest] gives the pooled
    engine (pre-ping, pool size 5, overflow 10) on [postgresql://rest]:
    only the scheme is rewritten, a later [postgres://] inside [rest] is
    left alone, and no directory is made. *)
Theorem postgres_url_gets_pooled_engine os rest :
  environ os "DATABASE_URL" = Some ("postgres://" ++ rest)%string ->
  create_engine_instance os
  = (Done {| url := "postgresql://" ++ rest;
             check_same_thread := None;
             pool_pre_ping := Some true;
             pool_size := Some 5%Z;
             max_overflow := Some 10%Z;
             echo := false |}, []).
Proof.
  intros Henv. unfold create_engine_instance, get_database_url, getenv_truthy.
  rewrite Henv. cbn [String.append Py.is_empty].
  change (String "p" (String "o" (String "s" (String "t" (String "g" (String "r"
           (String "e" (String "s" (String ":" (String "/" (String "/" rest)))))))))))
    with ("postgres://" ++ rest)%string.
  rewrite (prefix_append "postgres://" rest).
  rewrite replace_first_eq, (literal_complete "postgres://" rest).
  reflexivity.
Qed.

Lemma postgres_url_gets_pooled_engine_witness :
  create_engine_instance
    (os_with [("DATABASE_URL", "postgres://u:p@host/db?next=postgres://x")]%string)
  = (Done {| url := "postgresql://" ++ "u:p@host/db?next=postgres://x";
             check_same_thread := None;
             pool_pre_ping := Some true;
             pool_size := Some 5%Z;
             max_overflow := Some 10%Z;
             echo := false |}, []).
Proof.
  apply (postgres_url_gets_pooled_engine
           (os_with [("DATABASE_URL", "postgres://u:p@host/db?next=postgres://x")]%string)
           "u:p@host/db?next=postgres://x").
  reflexivity.
Defined.

(** X23.  [get_database_url] touches the file system in the SQLite
    fallback only.  With a non-empty DATABASE_URL or DB_PASSWORD it
    makes no directory and cannot fail.  With neither it
    asks [os.makedirs] for the data directory (DATA_DIR, or "data") and
    for no other, and that exactly when both messages were printed; it
    fails with [os.makedirs]' error exactly when that call raises after
    both prints, and otherwise fails only when a [print] raises. *)
Theorem database_url_makedirs os :
  match getenv_truthy os "DATABASE_URL", getenv_truthy os "DB_PASSWORD" with
  | None, None =>
      (snd (get_database_url os) = [] \/
       snd (get_database_url os) = [getenv_or os "DATA_DIR" "data"]) /\
      (snd (get_database_url os) = [getenv_or os "DATA_DIR" "data"] <->
       print os NoCredentialsWarning = true /\ print os SetVariablesHint = true) /\
      (fst (get_database_url os) = OSError <->
       print os NoCredentialsWarning = true /\ print os SetVariablesHint = true /\
       makedirs os (getenv_or os "DATA_DIR" "data") = false) /\
      (fst (get_database_url os) = PrintError <->
       print os NoCredentialsWarning = false \/ print os SetVariablesHint = false)
  | _, _ =>
      snd (get_database_url os) = [] /\
      exists database_url, fst (get_database_url os) = Done database_url
  end.
Proof.
  unfold get_database_url.
  destruct (getenv_truthy os "DATABASE_URL") as [db_url|].
  - destruct (prefix "postgres://" db_url); split; try reflexivity; eexists; reflexivity.
  - destruct (getenv_truthy os "DB_PASSWORD") as [pw|].
    + split; [reflexivity | eexists; reflexivity].
    + destruct (print os NoCredentialsWarning), (print os SetVariablesHint),
        (makedirs os _); cbn [negb fst snd];
        repeat split; intros; try discriminate; try tauto; auto;
        repeat match goal with
               | H : _ /\ _ |- _ => destruct H
               | H : _ \/ _ |- _ => destruct H
               end; try discriminate.
Qed.

(** X24.  DATABASE_URL takes precedence: when it is set and not empty,
    the URL returned depends on nothing else in the environment. *)
Theorem database_url_precedence os os' :
  getenv_truthy os "DATABASE_URL" <> None ->
  environ os' "DATABASE_URL" = environ os "DATABASE_URL" ->
  get_database_url os' = get_database_url os.
Proof.
  intros Hset Henv. unfold get_database_url, getenv_truthy in *. rewrite Henv.
  destruct (environ os "DATABASE_URL") as [v|]; [|contradiction].
  destruct (Py.is_empty v); [contradiction | reflexivity].
Qed.

Lemma database_url_precedence_witness :
  get_database_url
    {| environ := environ (os_with [("DATABASE_URL", "sqlite:///x.db");
                                     ("DB_PASSWORD", "s3cret"); ("DB_HOST", "db")]%string);
       print := fun _ => false;
       makedirs := fun _ => false;
       path_join := fun a b => b |}
  = get_database_url (os_with [("DATABASE_URL", "sqlite:///x.db")]%string).
Proof.
  apply (database_url_precedence (os_with [("DATABASE_URL", "sqlite:///x.db")]%string)).
  - discriminate.
  - reflexivity.
Defined.

End DatabaseFacts.

(** ** The [ytInitialData] blob *)

Lemma lazy_until_close_sound s : forall m,
  Re.lazy_until_close s = Some m ->
  exists post,
    s = (m ++ "};" ++ post)%string /\
    ~ In Re.newline (list_ascii_of_string m).
Proof.
  induction s as [|c s IH]; intros m H.
  - cbn in H. discriminate H.
  - cbn [Re.lazy_until_close] in H.
    destruct (Re.literal "};" (String c s)) as [post|] eqn:Hl.
    + injection H as <-. apply literal_sound in Hl. exists post. split; [exact Hl|].
      intros [].
    + destruct (Ascii.eqb c Re.newline) eqn:Hc; [discriminate H|].
      destruct (Re.lazy_until_close s) as [m'|] eqn:Hm; [|discriminate H].
      injection H as <-. destruct (IH m' eq_refl) as (post & -> & Hnl).
      exists post. split; [reflexivity|].
      intros [E|Hin]; [|now apply Hnl].
      subst c. now rewrite Ascii.eqb_refl in Hc.
Qed.

Lemma initial_data_at_sound s g :
  Re.initial_data_at s = Some g ->
  exists inner post,
    s = ("var ytInitialData = {" ++ inner ++ "};" ++ post)%string /\
    g = ("{" ++ inner ++ "}")%string /\
    inner <> ""%string /\
    ~ In Re.newline (list_ascii_of_string inner).
Proof.
  unfold Re.initial_data_at.
  destruct (Re.literal "var ytInitialData = {" s) as [[|c rest]|] eqn:Hl; try discriminate.
  destruct (Ascii.eqb c Re.newline) eqn:Hc; [discriminate|].
  destruct (Re.lazy_until_close rest) as [m|] eqn:Hm; [|discriminate].
  intros [= <-]. apply literal_sound in Hl.
  destruct (lazy_until_close_sound _ _ Hm) as (post & -> & Hnl).
  exists (String c m), post. repeat split.
  - exact Hl.
  - discriminate.
  - intros [E|Hin]; [|now apply Hnl].
    subst c. now rewrite Ascii.eqb_refl in Hc.
Qed.

(** X25.  What the JSON pass hands to [json.loads] is always a
    brace-delimited piece of one line: the page has
    [var ytInitialData = {inner};] with [inner] not empty and free of
    newlines, and the text loaded is [{inner}].  A blob laid out over
    several lines is never loaded. *)
Theorem initial_data_blob_shape body group1 :
  Re.search_initial_data body = Some group1 ->
  exists pre inner post,
    body = (pre ++ "var ytInitialData = {" ++ inner ++ "};" ++ post)%string /\
    group1 = ("{" ++ inner ++ "}")%string /\
    inner <> ""%string /\
    ~ In Re.newline (list_ascii_of_string inner).
Proof.
  induction body as [|c body IH]; cbn [Re.search_initial_data].
  - destruct (Re.initial_data_at "") as [g|] eqn:Hg; [|discriminate].
    intros [= <-]. destruct (initial_data_at_sound _ _ Hg) as (inner & post & E & H).
    exists ""%string, inner, post. split; [exact E | exact H].
  - destruct (Re.initial_data_at (String c body)) as [g|] eqn:Hg.
    + intros [= <-]. destruct (initial_data_at_sound _ _ Hg) as (inner & post & E & H).
      exists ""%string, inner, post. split; [exact E | exact H].
    + intros H. destruct (IH H) as (pre & inner & post & -> & Hrest).
      exists (String c pre), inner, post. split; [reflexivity | exact Hrest].
Qed.

Lemma initial_data_blob_shape_witness :
  exists pre inner post,
    "x; var ytInitialData = {[1], {}};</script>"%string
    = (pre ++ "var ytInitialData = {" ++ inner ++ "};" ++ post)%string /\
    "{[1], {}}"%string = ("{" ++ inner ++ "}")%string /\
    inner <> ""%string /\
    ~ In Re.newline (list_ascii_of_string inner).
Proof.
  apply (initial_data_blob_shape "x; var ytInitialData = {[1], {}};</script>" "{[1], {}}").
  reflexivity.
Defined.
